(** * tools/freeze_requirements.py: lock-file regeneration

    A shallow embedding of [worker], [check_futures], [main] and the
    script entry point of [tools/freeze_requirements.py], together with
    the properties of the orchestrator that the design document states.

    Conventions of the embedding.
    - Python [bytes] are [list byte]; Python [str] is a [string] holding
      the UTF-8 encoding of the text.
    - The file system is a finite map from path strings to files.  Paths
      are compared as strings and directories are not modelled.
    - Python exceptions are values of [exn]; code that may raise runs in
      the state-and-error monad [M] over [world].
    - The external compiler ([pip-compile], started by [subprocess.run])
      and the repository root ([tools.lib.gitroot]) are parameters.
    - [ThreadPoolExecutor.submit] is modelled by the schedule in which a
      submitted job has run to completion when [submit] returns; the
      future keeps what [worker] returned or raised, and
      [Future.result] returns or re-raises it.  The compiler being an
      arbitrary function of its command line and of the file system,
      every combination of job outcomes occurs in some run. *)

From Stdlib Require Import ZArith List String Ascii Bool Lia.
From Stdlib.Strings Require Import Byte.
From Stdlib Require Import DecimalString.
From stdpp Require Import gmap strings list.

Local Open Scope string_scope.
Local Open Scope list_scope.
Local Open Scope Z_scope.

(** ** Python values, exceptions and results *)

Module Py.

Abbreviation bytes := (list byte).

(** [OSError] and the subclasses the program can meet:
    [FileNotFoundError] and [PermissionError] from [open] and from
    starting a child process, [shutil.SameFileError] from [copyfile]. *)
Inductive oserror : Type :=
| FileNotFoundError (path : string)
| PermissionError (path : string)
| SameFileError (src dst : string).

Inductive exn : Type :=
| CalledProcessError (returncode : Z) (cmd : list string)
                     (stdout stderr : bytes)
| OSError (e : oserror)
| IndexError
| UnicodeDecodeError
| TypeError (msg : string)
| SystemExit (code : Z).

Inductive result (A : Type) : Type :=
| Ret (a : A)
| Raise (e : exn).
Arguments Ret {A} a.
Arguments Raise {A} e.

Definition is_CalledProcessError (e : exn) : bool :=
  match e with
  | CalledProcessError _ _ _ _ => true
  | _ => false
  end.

Definition returned {A} (r : result A) : bool :=
  match r with
  | Ret _ => true
  | Raise _ => false
  end.

(** [args[-1]] on a tuple. *)
Definition index_last {A} (args : list A) : result A :=
  match List.rev args with
  | x :: _ => Ret x
  | [] => Raise IndexError
  end.

(** [str(n)] for an [int]. *)
Definition str_int (n : Z) : string :=
  NilZero.string_of_int (Z.to_int n).

End Py.
Import Py.

(** ** Files and the world the program runs in *)

Record file : Type := File {
  data : bytes;
  readable : bool;
  writable : bool;
}.

Abbreviation filesys := (gmap string file).

(** A future holds what the submitted call returned or raised. *)
Abbreviation future := (result unit).

(** What the run does to the outside, in order: calls of [copyfile],
    submissions to the executor (with the future they returned), calls of
    [print], and [executor.shutdown()]. *)
Inductive event : Type :=
| EvCopy (src dst : string)
| EvSubmit (args : list string) (fut : future)
| EvPrint (text : string)
| EvShutdown.

Record world : Type := World {
  fs : filesys;
  log : list event;
}.

(** ** The state-and-error monad *)

Definition M (A : Type) : Type := world -> result A * world.

Definition ret {A} (a : A) : M A := fun w => (Ret a, w).
Definition raise {A} (e : exn) : M A := fun w => (Raise e, w).

Definition bind {A B} (c : M A) (k : A -> M B) : M B :=
  fun w =>
    match c w with
    | (Ret a, w') => k a w'
    | (Raise e, w') => (Raise e, w')
    end.

Notation "'let!' x ':=' c 'in' k" := (bind c (fun x => k))
  (at level 10, x name, c at level 100, k at level 200).
Notation "'do!' c 'in' k" := (bind c (fun _ => k))
  (at level 10, c at level 100, k at level 200).

(** [try: c  except E as e: h e] for the exceptions selected by [sel]. *)
Definition try_except {A} (c : M A) (sel : exn -> bool) (h : exn -> M A)
  : M A :=
  fun w =>
    match c w with
    | (Ret a, w') => (Ret a, w')
    | (Raise e, w') => if sel e then h e w' else (Raise e, w')
    end.

Definition get_fs : M filesys := fun w => (Ret (fs w), w).
Definition put_fs (m : filesys) : M unit :=
  fun w => (Ret tt, World m (log w)).
Definition emit (ev : event) : M unit :=
  fun w => (Ret tt, World (fs w) (log w ++ [ev])).

(** [for x in xs: body x] *)
Fixpoint for_each {A} (xs : list A) (body : A -> M unit) : M unit :=
  match xs with
  | [] => ret tt
  | x :: rest => do! body x in for_each rest body
  end.

(** ** File objects opened in binary mode *)

Record fileobj : Type := FileObj {
  f_path : string;
  f_buf : bytes;
  f_pos : nat;
  f_r : bool;
  f_w : bool;
}.

(** [open(path, "rb+")]: the file must exist and be open to reading and
    writing; the position starts at 0; nothing is truncated. *)
Definition open_rb_plus (path : string) : M fileobj :=
  let! m := get_fs in
  match m !! path with
  | None => raise (OSError (FileNotFoundError path))
  | Some f =>
      if readable f && writable f
      then ret (FileObj path (data f) 0 (readable f) (writable f))
      else raise (OSError (PermissionError path))
  end.

(** [f.read()]: everything from the position to the end. *)
Definition f_read (f : fileobj) : bytes * fileobj :=
  (skipn (f_pos f) (f_buf f),
   FileObj (f_path f) (f_buf f) (Nat.max (f_pos f) (length (f_buf f)))
           (f_r f) (f_w f)).

(** [f.seek(offset, 0)] *)
Definition f_seek (f : fileobj) (offset : nat) : fileobj :=
  FileObj (f_path f) (f_buf f) offset (f_r f) (f_w f).

(** [f.write(b)]: overwrite from the position on, growing the file when
    the data runs past its end (a gap before the position is filled with
    zero bytes). *)
Definition f_write (f : fileobj) (b : bytes) : fileobj :=
  let pos := f_pos f in
  let old := f_buf f in
  FileObj (f_path f)
          (firstn pos old ++ repeat x00 (pos - length old)
             ++ b ++ skipn (pos + length b) old)
          (pos + length b) (f_r f) (f_w f).

(** Leaving the [with] block closes the file: its content is stored. *)
Definition f_close (f : fileobj) : M unit :=
  let! m := get_fs in
  put_fs (<[f_path f := File (f_buf f) (f_r f) (f_w f)]> m).

(** The header the stamper puts before the compiler's output: one line
    and an empty line. *)
Definition header : bytes :=
  list_byte_of_string
    "# DO NOT MODIFY. This file was generated with `make freeze-requirements`."
  ++ [x0a; x0a].

(** ** The external compiler and [worker] *)

(** What starting the child process and waiting for it gives: it exited
    with a return code, its two captured streams and the file system it
    left, or the process could not be started. *)
Inductive spawned : Type :=
| Exited (returncode : Z) (stdout stderr : bytes) (after : filesys)
| NotStarted (e : oserror).

Section Tool.

Variable spawn : list string -> filesys -> spawned.

(** [subprocess.run(args, check=True, capture_output=True)] *)
Definition run (args : list string) : M unit :=
  let! m := get_fs in
  match spawn args m with
  | NotStarted e => raise (OSError e)
  | Exited rc out err m' =>
      do! put_fs m' in
      if (rc =? 0)%Z then ret tt
      else raise (CalledProcessError rc args out err)
  end.

Definition worker (args : list string) : M unit :=
  match index_last args with
  | Raise e => raise e
  | Ret dest =>
      do! try_except (run args) is_CalledProcessError (fun e => raise e) in
      let! f := open_rb_plus dest in
      let (content, f) := f_read f in
      let f := f_seek f 0 in
      let f := f_write f (header ++ content) in
      f_close f
  end.

End Tool.

(** ** Library calls used by the orchestrator *)

(** [shutil.copyfile(src, dst)]: refuses to copy a file onto itself,
    needs a readable source, and creates or overwrites the destination.
    The file system is a flat map from path strings to files, so this is
    [copyfile] on normalised paths into a directory that exists: two
    paths name the same file only when they are the same string, and a
    destination that is not there can always be created.  What the real
    call does on two spellings of one path, or into a directory that is
    missing, is outside the model; no statement below says when a copy
    goes through. *)
Definition copyfile (src dst : string) : M unit :=
  do! emit (EvCopy src dst) in
  let! m := get_fs in
  match m !! src with
  | None => raise (OSError (FileNotFoundError src))
  | Some f =>
      if String.eqb src dst then raise (OSError (SameFileError src dst))
      else if negb (readable f) then raise (OSError (PermissionError src))
      else
        match m !! dst with
        | None => put_fs (<[dst := File (data f) true true]> m)
        | Some g =>
            if writable g
            then put_fs (<[dst := File (data f) (readable g) true]> m)
            else raise (OSError (PermissionError dst))
        end
  end.

(** [bytes.decode()]: strict UTF-8.  The decoder reads one byte at a time;
    after a lead byte it expects continuation bytes, the first of them in
    a range that excludes overlong forms, surrogates and code points past
    U+10FFFF. *)
Inductive utf8_state : Type :=
| Utf8Start
| Utf8Cont (remaining : nat) (lo hi : N).

Definition between (lo hi b : N) : bool := ((lo <=? b) && (b <=? hi))%N.

Definition utf8_step (st : utf8_state) (b : N) : option utf8_state :=
  match st with
  | Utf8Start =>
      if between 0x00 0x7f b then Some Utf8Start
      else if between 0xc2 0xdf b then Some (Utf8Cont 1 0x80 0xbf)
      else if between 0xe0 0xe0 b then Some (Utf8Cont 2 0xa0 0xbf)
      else if between 0xe1 0xec b then Some (Utf8Cont 2 0x80 0xbf)
      else if between 0xed 0xed b then Some (Utf8Cont 2 0x80 0x9f)
      else if between 0xee 0xef b then Some (Utf8Cont 2 0x80 0xbf)
      else if between 0xf0 0xf0 b then Some (Utf8Cont 3 0x90 0xbf)
      else if between 0xf1 0xf3 b then Some (Utf8Cont 3 0x80 0xbf)
      else if between 0xf4 0xf4 b then Some (Utf8Cont 3 0x80 0x8f)
      else None
  | Utf8Cont n lo hi =>
      if between lo hi b then
        match n with
        | 0%nat => None
        | 1%nat => Some Utf8Start
        | S n' => Some (Utf8Cont n' 0x80 0xbf)
        end
      else None
  end.

Fixpoint utf8_scan (st : utf8_state) (bs : bytes) : bool :=
  match bs with
  | [] => match st with Utf8Start => true | Utf8Cont _ _ _ => false end
  | b :: rest =>
      match utf8_step st (Byte.to_N b) with
      | Some st' => utf8_scan st' rest
      | None => false
      end
  end.

Definition bytes_decode (b : bytes) : M string :=
  if utf8_scan Utf8Start b then ret (string_of_list_byte b)
  else raise UnicodeDecodeError.

(** [repr] of a [str] and of a tuple of [str].  A string is held as its
    UTF-8 bytes, and the bytes of a multi-byte character are kept as
    they are: that is [repr] for ASCII text and for printable text
    outside ASCII.  A character outside ASCII that is not printable
    (U+0085, U+00A0, ...), which Python writes as an escape, is kept as
    it is too; the statements below use [repr_tuple] only through
    [report_text] and fix the rendering of no such character. *)
Definition quote1 : ascii := ascii_of_nat 39.
Definition quote2 : ascii := ascii_of_nat 34.
Definition backslash : ascii := ascii_of_nat 92.
Definition nl : string := String (ascii_of_nat 10) "".

Fixpoint mentions (c : ascii) (s : string) : bool :=
  match s with
  | EmptyString => false
  | String d rest => Ascii.eqb c d || mentions c rest
  end.

Definition hex_digit (n : nat) : ascii :=
  ascii_of_nat (if (n <? 10)%nat then 48 + n else 87 + n).

Definition repr_char (q c : ascii) : string :=
  let n := nat_of_ascii c in
  if Ascii.eqb c q || Ascii.eqb c backslash then String backslash (String c "")
  else if (n =? 9)%nat then String backslash "t"
  else if (n =? 10)%nat then String backslash "n"
  else if (n =? 13)%nat then String backslash "r"
  else if (n <? 32)%nat || (n =? 127)%nat
  then String backslash
         (String "x" (String (hex_digit (n / 16))
                        (String (hex_digit (n mod 16)) "")))
  else String c "".

Fixpoint repr_body (q : ascii) (s : string) : string :=
  match s with
  | EmptyString => ""
  | String c rest => repr_char q c +:+ repr_body q rest
  end.

Definition repr_str (s : string) : string :=
  let q := if mentions quote1 s && negb (mentions quote2 s)
           then quote2 else quote1 in
  String q (repr_body q s) +:+ String q "".

Fixpoint join (sep : string) (xs : list string) : string :=
  match xs with
  | [] => ""
  | [x] => x
  | x :: rest => x +:+ sep +:+ join sep rest
  end.

Definition repr_tuple (xs : list string) : string :=
  match xs with
  | [x] => "(" +:+ repr_str x +:+ ",)"
  | _ => "(" +:+ join ", " (map repr_str xs) +:+ ")"
  end.

(** ** [check_futures] *)

Definition print (text : string) : M unit := emit (EvPrint text).

(** [Future.result()] *)
Definition future_result (fut : future) : M unit :=
  match fut with
  | Ret _ => ret tt
  | Raise e => raise e
  end.

(** The f-string printed for a failed command; its fields are evaluated
    from left to right, so either [decode] may raise before anything is
    printed. *)
Definition report (returncode : Z) (cmd : list string)
  (stdout stderr : bytes) : M string :=
  let! out := bytes_decode stdout in
  let! err := bytes_decode stderr in
  ret ("`" +:+ repr_tuple cmd +:+ "` returned code " +:+ str_int returncode
       +:+ nl +:+ nl +:+ "stdout:" +:+ nl +:+ out
       +:+ nl +:+ nl +:+ "stderr:" +:+ nl +:+ err +:+ nl).

(** The loop of [check_futures], started with the value [rc] has at the
    top of the iteration. *)
Fixpoint check_futures_loop (rc : Z) (futures : list future) : M Z :=
  match futures with
  | [] => ret rc
  | fut :: rest =>
      let! rc :=
        try_except (do! future_result fut in ret rc) is_CalledProcessError
          (fun e =>
             match e with
             | CalledProcessError returncode cmd stdout stderr =>
                 let! text := report returncode cmd stdout stderr in
                 do! print text in
                 ret 1
             | _ => raise e
             end) in
      check_futures_loop rc rest
  end.

Definition check_futures (futures : list future) : M Z :=
  check_futures_loop 0 futures.

(** ** The executor *)

(** [executor.submit(fn, args)]: the call [fn(args)] runs in the pool;
    what it returns or raises is kept in the future, and [submit] itself
    does not raise. *)
Definition executor_submit (fn : list string -> M unit) (args : list string)
  : M future :=
  fun w =>
    let (r, w') := fn args w in
    (Ret r, World (fs w') (log w' ++ [EvSubmit args r])).

Definition executor_shutdown : M unit := emit EvShutdown.

(** ** [main] *)

Section Main.

Variable spawn : list string -> filesys -> spawned.

(** [abspath(gitroot())]; [tools.lib.gitroot] is not part of the sources
    at hand. *)
Variable base_path : string.

Definition lockfiles : list string :=
  ["requirements-frozen.txt";
   "requirements-dev-frozen.txt";
   "requirements-dev-only-frozen.txt"].

Definition base_cmd : list string :=
  ["pip-compile"; "--no-header"; "--no-annotate"; "--allow-unsafe"; "-q"].

(** The [if outdir is None: ... else: ...] block at the head of [main];
    it yields the value [outdir] has afterwards. *)
Definition seeding (outdir : option string) : M string :=
  match outdir with
  | None => ret base_path
  | Some outdir =>
      do! for_each lockfiles (fun lockfile =>
            copyfile (base_path +:+ "/" +:+ lockfile)
                     (outdir +:+ "/" +:+ lockfile)) in
      ret outdir
  end.

Definition main (repo : string) (outdir : option string) : M Z :=
  let IS_GETSENTRY := String.eqb repo "getsentry" in
  let! outdir := seeding outdir in
  let! f1 := executor_submit (worker spawn)
    (base_cmd ++ [base_path +:+ "/requirements-base.txt";
                  "-o";
                  outdir +:+ "/requirements-frozen.txt"]) in
  let! f2 := executor_submit (worker spawn)
    (base_cmd ++ [base_path +:+ "/requirements-base.txt";
                  base_path +:+ "/requirements-dev.txt";
                  "-o";
                  outdir +:+ "/requirements-dev-frozen.txt"]) in
  let! futures :=
    if negb IS_GETSENTRY then
      let! f3 := executor_submit (worker spawn)
        (base_cmd ++ [base_path +:+ "/requirements-dev.txt";
                      "-o";
                      outdir +:+ "/requirements-dev-only-frozen.txt"]) in
      ret [f1; f2; f3]
    else ret [f1; f2] in
  let! rc := check_futures futures in
  if negb (rc =? 0)%Z then
    do! executor_shutdown in
    ret rc
  else
    let! rc :=
      if IS_GETSENTRY then
        let! g1 := executor_submit (worker spawn)
          (base_cmd ++ [base_path +:+ "/requirements-base.txt";
                        base_path +:+ "/sentry-requirements-frozen.txt";
                        "-o";
                        outdir +:+ "/requirements-frozen.txt"]) in
        let! g2 := executor_submit (worker spawn)
          (base_cmd ++ [base_path +:+ "/requirements-base.txt";
                        base_path +:+ "/requirements-dev.txt";
                        base_path +:+ "/sentry-requirements-dev-frozen.txt";
                        "-o";
                        outdir +:+ "/requirements-dev-frozen.txt"]) in
        check_futures [g1; g2]
      else ret rc in
    do! executor_shutdown in
    ret rc.

(** ** The script entry point *)

(** The namespace [parse_args] builds: the parser declares the single
    positional argument [repo]. *)
Record namespace : Type := Namespace {
  ns_repo : string;
}.

(** [argparse.ArgumentParser.parse_args] for that parser; it returns the
    namespace or raises [SystemExit]. *)
Variable parse_args : list string -> result namespace.

(** Binding positional arguments to the two parameters of a function
    without defaults, as the interpreter does at a call. *)
Definition bind_two {A} (fname p1 p2 : string) (positional : list A)
  : result (A * A) :=
  match positional with
  | [a; b] => Ret (a, b)
  | [] =>
      Raise (TypeError (fname +:+ "() missing 2 required positional arguments: '"
                          +:+ p1 +:+ "' and '" +:+ p2 +:+ "'"))
  | [_] =>
      Raise (TypeError (fname +:+ "() missing 1 required positional argument: '"
                          +:+ p2 +:+ "'"))
  | _ =>
      Raise (TypeError (fname +:+ "() takes 2 positional arguments but "
                          +:+ str_int (Z.of_nat (length positional))
                          +:+ " were given"))
  end.

(** A call [main(...)] with positional arguments of type [str]. *)
Definition call_main (positional : list string) : M Z :=
  match bind_two "main" "repo" "outdir" positional with
  | Ret (repo, outdir) => main repo (Some outdir)
  | Raise e => raise e
  end.

(** The body of [if __name__ == "__main__":], run on [sys.argv[1:]]. *)
Definition script (argv : list string) : M unit :=
  match parse_args argv with
  | Raise e => raise e
  | Ret args =>
      let! status := call_main [ns_repo args] in
      raise (SystemExit status)
  end.

(** The exit status of the interpreter: the code of [SystemExit], 1 for
    any other exception that reaches the top level, 0 otherwise. *)
Definition exit_status {A} (r : result A) : Z :=
  match r with
  | Ret _ => 0
  | Raise (SystemExit code) => code
  | Raise _ => 1
  end.

End Main.

(** [raise SystemExit(<call>)], given what the call returned or raised:
    the last line of the script, with [main(...)] as the call. *)
Definition exit_with (r : result Z) : result unit :=
  match r with
  | Ret status => Raise (SystemExit status)
  | Raise e => Raise e
  end.

(** ** Vocabulary of the specification *)

(** The events a computation adds to the log. *)
Definition run_log {A} (c : M A) (w : world) : list event :=
  drop (length (log w)) (log (snd (c w))).

Definition submitted (evs : list event) : list (list string * future) :=
  omap (fun ev => match ev with
                  | EvSubmit args fut => Some (args, fut)
                  | _ => None
                  end) evs.

Definition copied (evs : list event) : list (string * string) :=
  omap (fun ev => match ev with
                  | EvCopy src dst => Some (src, dst)
                  | _ => None
                  end) evs.

Definition printed (evs : list event) : list string :=
  omap (fun ev => match ev with
                  | EvPrint text => Some text
                  | _ => None
                  end) evs.

Definition is_submit (ev : event) : bool :=
  match ev with
  | EvSubmit _ _ => true
  | _ => false
  end.

(** A job failed when its future holds an exception. *)
Definition failed (fut : future) : bool := negb (returned fut).

Definition decodable (b : bytes) : bool := utf8_scan Utf8Start b.

(** The futures [check_futures] gets past: a job that returned, or one
    that raised [CalledProcessError] with streams that decode. *)
Definition aggregable (fut : future) : bool :=
  match fut with
  | Ret _ => true
  | Raise (CalledProcessError _ _ stdout stderr) =>
      decodable stdout && decodable stderr
  | Raise _ => false
  end.

(** The exception that leaves [check_futures] at a future it does not
    get past. *)
Definition escaping (fut : future) : exn :=
  match fut with
  | Raise (CalledProcessError _ _ _ _) => UnicodeDecodeError
  | Raise e => e
  | Ret _ => UnicodeDecodeError
  end.

(** The text printed for a failed command: the command tokens, the exit
    code and the two captured streams. *)
Definition report_text (returncode : Z) (cmd : list string)
  (stdout stderr : bytes) : string :=
  "`" +:+ repr_tuple cmd +:+ "` returned code " +:+ str_int returncode
  +:+ nl +:+ nl +:+ "stdout:" +:+ nl +:+ string_of_list_byte stdout
  +:+ nl +:+ nl +:+ "stderr:" +:+ nl +:+ string_of_list_byte stderr +:+ nl.

Fixpoint reports (futures : list future) : list string :=
  match futures with
  | [] => []
  | Raise (CalledProcessError rc cmd out err) :: rest =>
      report_text rc cmd out err :: reports rest
  | _ :: rest => reports rest
  end.

(** The aggregate status of a stage. *)
Definition status_of (futures : list future) : Z :=
  if existsb failed futures then 1 else 0.

(** The job lists of the two stages, as [main] writes them out. *)
Definition stage1_jobs (base_path : string) (merge : bool) (outdir : string)
  : list (list string) :=
  [ base_cmd ++ [base_path +:+ "/requirements-base.txt"]
      ++ ["-o"; outdir +:+ "/requirements-frozen.txt"];
    base_cmd ++ [base_path +:+ "/requirements-base.txt";
                 base_path +:+ "/requirements-dev.txt"]
      ++ ["-o"; outdir +:+ "/requirements-dev-frozen.txt"] ]
  ++ (if merge then []
      else [ base_cmd ++ [base_path +:+ "/requirements-dev.txt"]
               ++ ["-o"; outdir +:+ "/requirements-dev-only-frozen.txt"] ]).

(** The override input each stage-2 job adds. *)
Definition overrides (base_path : string) : list string :=
  [ base_path +:+ "/sentry-requirements-frozen.txt";
    base_path +:+ "/sentry-requirements-dev-frozen.txt" ].

(** [job] with [extra] put just before its ["-o"; output] tail. *)
Definition with_override (job : list string) (extra : string) : list string :=
  take (length job - 2) job ++ [extra] ++ drop (length job - 2) job.

Definition stage2_jobs (base_path outdir : string) : list (list string) :=
  zip_with with_override (stage1_jobs base_path true outdir)
           (overrides base_path).

(** The value [outdir] has after the head of [main]. *)
Definition out_path (base_path : string) (outdir : option string) : string :=
  match outdir with
  | None => base_path
  | Some o => o
  end.

Definition seed_pairs (base_path outdir : string) : list (string * string) :=
  map (fun lockfile => (base_path +:+ "/" +:+ lockfile,
                        outdir +:+ "/" +:+ lockfile)) lockfiles.

(** Submitting a list of jobs in order. *)
Fixpoint submit_all (spawn : list string -> filesys -> spawned)
  (jobs : list (list string)) : M (list future) :=
  match jobs with
  | [] => ret []
  | job :: rest =>
      let! fut := executor_submit (worker spawn) job in
      let! futs := submit_all spawn rest in
      ret (fut :: futs)
  end.

(** The orchestrator as the design describes it: seeding, stage 1 and its
    aggregation, then stage 2 for the merge mode only. *)
Definition staged (spawn : list string -> filesys -> spawned)
  (base_path : string) (merge : bool) (outdir : option string) : M Z :=
  let! out := seeding base_path outdir in
  let! futures := submit_all spawn (stage1_jobs base_path merge out) in
  let! rc := check_futures futures in
  if negb (rc =? 0)%Z then
    do! executor_shutdown in
    ret rc
  else if merge then
    let! futures2 := submit_all spawn (stage2_jobs base_path out) in
    let! rc := check_futures futures2 in
    do! executor_shutdown in
    ret rc
  else
    do! executor_shutdown in
    ret rc.

(** ** Compilers and parsers used in examples *)

(** A compiler that exits with [rc] and, when [rc] is 0, leaves [out] at
    the path given last on its command line. *)
Definition tool_writing (rc : Z) (out err : bytes)
  (args : list string) (m : filesys) : spawned :=
  match index_last args with
  | Ret dest =>
      if (rc =? 0)%Z then Exited rc [] err (<[dest := File out true true]> m)
      else Exited rc [] err m
  | Raise _ => Exited 2 [] err m
  end.

(** What a scripted compiler does with one command line. *)
Inductive behaviour : Type :=
| Writes (content : bytes)
| ExitsWith (returncode : Z) (stdout stderr : bytes)
| WritesNothing.

Definition tool_scripted (plan : list string -> behaviour)
  (args : list string) (m : filesys) : spawned :=
  match plan args, index_last args with
  | Writes c, Ret dest => Exited 0 [] [] (<[dest := File c true true]> m)
  | ExitsWith rc out err, _ => Exited rc out err m
  | _, _ => Exited 0 [] [] m
  end.

(** A parser that takes exactly one token. *)
Definition parse_one (argv : list string) : result namespace :=
  match argv with
  | [repo] => Ret (Namespace repo)
  | _ => Raise (SystemExit 2)
  end.

Definition empty_world : world := World ∅ [].

(** Two strings whose ends differ: read backwards from the last
    character, they disagree before either of them runs out. *)
Fixpoint mismatch (xs ys : list ascii) : bool :=
  match xs, ys with
  | x :: xs', y :: ys' => negb (Ascii.eqb x y) || mismatch xs' ys'
  | _, _ => false
  end.

Definition ends_differ (s t : string) : bool :=
  mismatch (rev (list_ascii_of_string s)) (rev (list_ascii_of_string t)).

(** ** Shapes of a run *)

Definition jobs_of (evs : list event) : list (list string) :=
  map fst (submitted evs).

Definition futures_of (evs : list event) : list future :=
  map snd (submitted evs).

Definition copy_events (pairs : list (string * string)) : list event :=
  map (fun p => EvCopy (fst p) (snd p)) pairs.

(** [open(path, "rb+")] succeeds on the file system [m]. *)
Definition openable (m : filesys) (path : string) : bool :=
  match m !! path with
  | Some f => readable f && writable f
  | None => false
  end.

(** The exceptions [worker] can raise, and the futures the executor can
    return for it. *)
Definition raised_by_worker (e : exn) : bool :=
  match e with
  | CalledProcessError _ _ _ _ | OSError _ | IndexError => true
  | _ => false
  end.

Definition worker_future (fut : future) : bool :=
  match fut with
  | Ret _ => true
  | Raise e => raised_by_worker e
  end.

(** What a run does once seeding is over, given the jobs of the two
    stages: its result and the events it adds.  Stage 1 either stops at a
    future the aggregator does not get past, or is drained; stage 2 is
    reached only in the merge mode and only when every stage-1 job
    returned. *)
Inductive run_shape (jobs1 jobs2 : list (list string)) (merge : bool)
  : result Z -> list event -> Prop :=
| Stage1Raises (futs1 pre post : list future) (bad : future) :
    length futs1 = length jobs1 ->
    forallb worker_future futs1 = true ->
    futs1 = pre ++ bad :: post ->
    forallb aggregable pre = true ->
    aggregable bad = false ->
    run_shape jobs1 jobs2 merge
      (Raise (escaping bad))
      (zip_with EvSubmit jobs1 futs1 ++ map EvPrint (reports pre))
| Stage1Ends (futs1 : list future) :
    length futs1 = length jobs1 ->
    forallb worker_future futs1 = true ->
    forallb aggregable futs1 = true ->
    existsb failed futs1 || negb merge = true ->
    run_shape jobs1 jobs2 merge
      (Ret (status_of futs1))
      (zip_with EvSubmit jobs1 futs1 ++ map EvPrint (reports futs1)
         ++ [EvShutdown])
| Stage2Raises (futs1 futs2 pre post : list future) (bad : future) :
    merge = true ->
    length futs1 = length jobs1 ->
    forallb returned futs1 = true ->
    length futs2 = length jobs2 ->
    forallb worker_future futs2 = true ->
    futs2 = pre ++ bad :: post ->
    forallb aggregable pre = true ->
    aggregable bad = false ->
    run_shape jobs1 jobs2 merge
      (Raise (escaping bad))
      (zip_with EvSubmit jobs1 futs1 ++ zip_with EvSubmit jobs2 futs2
         ++ map EvPrint (reports pre))
| Stage2Ends (futs1 futs2 : list future) :
    merge = true ->
    length futs1 = length jobs1 ->
    forallb returned futs1 = true ->
    length futs2 = length jobs2 ->
    forallb worker_future futs2 = true ->
    forallb aggregable futs2 = true ->
    run_shape jobs1 jobs2 merge
      (Ret (status_of futs2))
      (zip_with EvSubmit jobs1 futs1 ++ zip_with EvSubmit jobs2 futs2
         ++ map EvPrint (reports futs2) ++ [EvShutdown]).

(** ** The statements of the design that the program does not meet *)

(** In the merge mode, a failed stage-1 job means that no stage-2 job is
    submitted and that the run returns the stage-1 status right after the
    shutdown of the pool. *)
Definition stage1_failure_returns (spawn : list string -> filesys -> spawned)
  (base_path : string) (outdir : option string) (w : world) : Prop :=
  let c := main spawn base_path "getsentry" outdir in
  existsb failed (take 2 (futures_of (run_log c w))) = true ->
  jobs_of (run_log c w)
    = stage1_jobs base_path true (out_path base_path outdir)
  /\ fst (c w) = Ret 1
  /\ last (run_log c w) = Some EvShutdown.

(** [main] returns 0 exactly when every job succeeded, and 1 as soon as a
    job failed. *)
Definition status_reflects_jobs (spawn : list string -> filesys -> spawned)
  (base_path repo : string) (outdir : option string) (w : world) : Prop :=
  let c := main spawn base_path repo outdir in
  (fst (c w) = Ret 0 <-> forallb returned (futures_of (run_log c w)) = true)
  /\ (existsb failed (futures_of (run_log c w)) = true -> fst (c w) = Ret 1).

(** Whatever the outcomes, the aggregator gets to the end of the stage
    and prints the report of every failed command. *)
Definition drains_every_stage (futures : list future) (w : world) : Prop :=
  returned (fst (check_futures futures w)) = true
  /\ forall rc cmd out err,
       In (Raise (CalledProcessError rc cmd out err)) futures ->
       In (report_text rc cmd out err)
          (printed (run_log (check_futures futures) w)).

(** The seeder runs when the output path differs from the base path and
    copies the three lock files; it is skipped when the two paths are
    equal; a missing source stops the run before any job. *)
Definition seeder_follows_paths (spawn : list string -> filesys -> spawned)
  (base_path repo : string) (outdir : option string) (w : world) : Prop :=
  let c := main spawn base_path repo outdir in
  let out := out_path base_path outdir in
  (out <> base_path ->
   returned (fst (seeding base_path outdir w)) = true ->
   copied (run_log c w) = seed_pairs base_path out)
  /\ (out = base_path -> copied (run_log c w) = [])
  /\ (out <> base_path ->
      (exists lockfile,
          In lockfile lockfiles
          /\ fs w !! (base_path +:+ "/" +:+ lockfile) = None) ->
      returned (fst (c w)) = false /\ jobs_of (run_log c w) = []).

(** Every run for a repository other than getsentry submits exactly
    three jobs. *)
Definition plain_run_three_jobs (spawn : list string -> filesys -> spawned)
  (base_path repo : string) (outdir : option string) (w : world) : Prop :=
  repo <> "getsentry" ->
  length (jobs_of (run_log (main spawn base_path repo outdir) w)) = 3%nat.

(** ** Scripts for the examples *)

(** A checkout at [/repo] that holds the three lock files. *)
Definition repo_world : world :=
  World (list_to_map
           [("/repo/requirements-frozen.txt", File [] true true);
            ("/repo/requirements-dev-frozen.txt", File [] true true);
            ("/repo/requirements-dev-only-frozen.txt", File [] true true)])
        [].

(** The compiler fails on the first lock file and exits with 0 on the
    others without writing anything. *)
Definition plan_mixed (args : list string) : behaviour :=
  match index_last args with
  | Ret dest =>
      if String.eqb dest "/repo/requirements-frozen.txt"
      then ExitsWith 1 [] (list_byte_of_string "boom")
      else WritesNothing
  | Raise _ => WritesNothing
  end.

(** The compiler always exits with 0 and never writes its output. *)
Definition plan_silent (args : list string) : behaviour := WritesNothing.

(** The compiler writes every lock file it is asked for. *)
Definition plan_ok (args : list string) : behaviour :=
  Writes (list_byte_of_string "a==1").

(** The compiler fails on every command line. *)
Definition plan_failing (args : list string) : behaviour :=
  ExitsWith 2 [] (list_byte_of_string "boom").

(** ** Files after a job *)

(** The file system once the child process is over: what it left, or the
    one it was given when it could not be started. *)
Definition tool_fs (spawn : list string -> filesys -> spawned)
  (args : list string) (m : filesys) : filesys :=
  match spawn args m with
  | Exited _ _ _ m' => m'
  | NotStarted _ => m
  end.

(** A compiler that, whatever its exit code, changes no file other than
    the one named last on its command line. *)
Definition framed (spawn : list string -> filesys -> spawned) : Prop :=
  forall args m rc out err m',
    spawn args m = Exited rc out err m' ->
    forall path, index_last args <> Ret path -> m' !! path = m !! path.

(** The exception a future holds, if any. *)
Definition held (fut : future) : option exn :=
  match fut with
  | Ret _ => None
  | Raise e => Some e
  end.

Definition count_shutdowns (evs : list event) : nat :=
  length (List.filter (fun ev => match ev with
                                 | EvShutdown => true
                                 | _ => false
                                 end) evs).

(** A computation that leaves the file at [path] as it is. *)
Definition keeps {A} (path : string) (c : M A) : Prop :=
  forall w, fs (snd (c w)) !! path = fs w !! path.

(** The files a run reads as inputs of the compiler. *)
Definition input_files (base_path : string) : list string :=
  [ base_path +:+ "/requirements-base.txt";
    base_path +:+ "/requirements-dev.txt";
    base_path +:+ "/sentry-requirements-frozen.txt";
    base_path +:+ "/sentry-requirements-dev-frozen.txt" ].

(** An event that, if it is a submission, carries the outcome of
    [worker] on the submitted command line. *)
Definition from_worker (spawn : list string -> filesys -> spawned)
  (ev : event) : Prop :=
  match ev with
  | EvSubmit args fut => exists w0, fut = fst (worker spawn args w0)
  | _ => True
  end.

(** A computation that only appends such events to the log. *)
Definition appends (spawn : list string -> filesys -> spawned) {A}
  (c : M A) : Prop :=
  forall w, exists evs,
    log (snd (c w)) = log w ++ evs /\ List.Forall (from_worker spawn) evs.

(** ** Proof automation *)

(** One step of a symbolic run: case analysis on the next test of a
    status, aggregation or job. *)
Ltac run_step :=
  match goal with
  | |- context [(?rc =? 0)%Z] => destruct (rc =? 0)%Z
  | |- context [check_futures ?futs ?w] =>
      destruct (check_futures futs w) as [[?|?] ?]
  | |- context [worker ?spawn ?job ?w] =>
      destruct (worker spawn job w) as [? ?]
  end.

(** * Properties *)

(** ** The monad and the log *)

Lemma world_eta (w : world) : World (fs w) (log w) = w.
Proof. destruct w; reflexivity. Qed.

Lemma run_log_app {A} (c : M A) (w : world) (evs : list event) :
  log (snd (c w)) = log w ++ evs -> run_log c w = evs.
Proof. intros H. unfold run_log. rewrite H. apply drop_app_length. Qed.

Lemma submitted_app (xs ys : list event) :
  submitted (xs ++ ys) = submitted xs ++ submitted ys.
Proof. unfold submitted. apply omap_app. Qed.

Lemma copied_app (xs ys : list event) :
  copied (xs ++ ys) = copied xs ++ copied ys.
Proof. unfold copied. apply omap_app. Qed.

Lemma printed_app (xs ys : list event) :
  printed (xs ++ ys) = printed xs ++ printed ys.
Proof. unfold printed. apply omap_app. Qed.

Lemma submitted_prints (texts : list string) :
  submitted (map EvPrint texts) = [].
Proof. induction texts; simpl; auto. Qed.

Lemma copied_prints (texts : list string) :
  copied (map EvPrint texts) = [].
Proof. induction texts; simpl; auto. Qed.

Lemma printed_prints (texts : list string) :
  printed (map EvPrint texts) = texts.
Proof. induction texts; simpl; f_equal; auto. Qed.

Lemma submitted_submits (jobs : list (list string)) (futs : list future) :
  length futs = length jobs ->
  submitted (zip_with EvSubmit jobs futs) = zip jobs futs.
Proof.
  revert futs. induction jobs as [|j jobs IH]; intros [|f futs] Hlen;
    simpl in *; try discriminate; auto.
  f_equal. apply IH. lia.
Qed.

Lemma copied_submits (jobs : list (list string)) (futs : list future) :
  copied (zip_with EvSubmit jobs futs) = [].
Proof.
  revert futs. induction jobs as [|j jobs IH]; intros [|f futs]; simpl; auto.
Qed.

Lemma printed_submits (jobs : list (list string)) (futs : list future) :
  printed (zip_with EvSubmit jobs futs) = [].
Proof.
  revert futs. induction jobs as [|j jobs IH]; intros [|f futs]; simpl; auto.
Qed.

(** ** Reading a log *)

Lemma submitted_copies (pairs : list (string * string)) :
  submitted (copy_events pairs) = [].
Proof. induction pairs; simpl; auto. Qed.

Lemma printed_copies (pairs : list (string * string)) :
  printed (copy_events pairs) = [].
Proof. induction pairs; simpl; auto. Qed.

Lemma copied_copies (pairs : list (string * string)) :
  copied (copy_events pairs) = pairs.
Proof. induction pairs as [|[] ?]; simpl; f_equal; auto. Qed.

Lemma jobs_of_app (xs ys : list event) :
  jobs_of (xs ++ ys) = jobs_of xs ++ jobs_of ys.
Proof. unfold jobs_of. rewrite submitted_app. apply map_app. Qed.

Lemma futures_of_app (xs ys : list event) :
  futures_of (xs ++ ys) = futures_of xs ++ futures_of ys.
Proof. unfold futures_of. rewrite submitted_app. apply map_app. Qed.

Lemma jobs_of_copies (pairs : list (string * string)) :
  jobs_of (copy_events pairs) = [].
Proof. unfold jobs_of. rewrite submitted_copies. reflexivity. Qed.

Lemma futures_of_copies (pairs : list (string * string)) :
  futures_of (copy_events pairs) = [].
Proof. unfold futures_of. rewrite submitted_copies. reflexivity. Qed.

Lemma jobs_of_prints (texts : list string) : jobs_of (map EvPrint texts) = [].
Proof. unfold jobs_of. rewrite submitted_prints. reflexivity. Qed.

Lemma futures_of_prints (texts : list string) :
  futures_of (map EvPrint texts) = [].
Proof. unfold futures_of. rewrite submitted_prints. reflexivity. Qed.

Lemma jobs_of_submits (jobs : list (list string)) (futs : list future) :
  length futs = length jobs ->
  jobs_of (zip_with EvSubmit jobs futs) = jobs.
Proof.
  intros H. unfold jobs_of. rewrite submitted_submits by exact H.
  apply fst_zip. lia.
Qed.

Lemma futures_of_submits (jobs : list (list string)) (futs : list future) :
  length futs = length jobs ->
  futures_of (zip_with EvSubmit jobs futs) = futs.
Proof.
  intros H. unfold futures_of. rewrite submitted_submits by exact H.
  apply snd_zip. lia.
Qed.

Lemma jobs_of_shutdown : jobs_of [EvShutdown] = [].
Proof. reflexivity. Qed.

Lemma futures_of_shutdown : futures_of [EvShutdown] = [].
Proof. reflexivity. Qed.

Lemma printed_shutdown : printed [EvShutdown] = [].
Proof. reflexivity. Qed.

Lemma copied_shutdown : copied [EvShutdown] = [].
Proof. reflexivity. Qed.

Create Rewrite HintDb events.
#[local] Hint Rewrite jobs_of_app futures_of_app printed_app copied_app
  jobs_of_copies futures_of_copies printed_copies copied_copies
  jobs_of_prints futures_of_prints printed_prints copied_prints
  printed_submits copied_submits
  jobs_of_shutdown futures_of_shutdown printed_shutdown copied_shutdown
  app_nil_r app_nil_l : events.
#[local] Hint Rewrite jobs_of_submits futures_of_submits
  using assumption : events.

Lemma no_shutdown_in_copies (pairs : list (string * string)) :
  ~ In EvShutdown (copy_events pairs).
Proof. induction pairs; simpl; intuition discriminate. Qed.

Lemma no_shutdown_in_submits (jobs : list (list string))
  (futs : list future) :
  ~ In EvShutdown (zip_with EvSubmit jobs futs).
Proof.
  revert futs. induction jobs as [|j jobs IH]; intros [|f futs]; simpl; auto.
  intros [H|H]; [discriminate|]. exact (IH _ H).
Qed.

Lemma no_shutdown_in_prints (texts : list string) :
  ~ In EvShutdown (map EvPrint texts).
Proof. induction texts; simpl; intuition discriminate. Qed.

(** ** Facts about lists of futures *)

Lemma existsb_failed_returned (futures : list future) :
  existsb failed futures = negb (forallb returned futures).
Proof.
  induction futures as [|[[]|e] rest IH]; simpl; auto.
Qed.

Lemma not_all_aggregable (pre post : list future) (bad : future) :
  aggregable bad = false ->
  forallb aggregable (pre ++ bad :: post) = false.
Proof.
  intros H. rewrite forallb_app. simpl. rewrite H.
  apply andb_false_r.
Qed.

Lemma not_aggregable_failed (bad : future) :
  aggregable bad = false -> failed bad = true.
Proof. destruct bad as [[]|e]; simpl; auto. Qed.

Lemma reports_count (futures : list future) :
  forallb aggregable futures = true ->
  length (reports futures) = length (List.filter failed futures).
Proof.
  induction futures as [|[[]|e] rest IH]; simpl; auto.
  destruct e; simpl; try discriminate.
  intros H. apply andb_prop in H as [_ H]. f_equal. auto.
Qed.

Lemma status_of_returned (futs1 futs2 : list future) :
  forallb returned futs1 = true ->
  status_of (futs1 ++ futs2) = status_of futs2.
Proof.
  intros H. unfold status_of. rewrite existsb_app.
  rewrite (existsb_failed_returned futs1), H. reflexivity.
Qed.

(** ** Paths *)

Lemma list_ascii_of_string_app (a s : string) :
  list_ascii_of_string (a +:+ s)
  = list_ascii_of_string a ++ list_ascii_of_string s.
Proof. induction a as [|c a IH]; simpl; [reflexivity|]. f_equal. exact IH. Qed.

Lemma mismatch_apart (xs ys p q : list ascii) :
  mismatch xs ys = true -> xs ++ p <> ys ++ q.
Proof.
  revert ys. induction xs as [|x xs IH]; intros [|y ys]; simpl;
    try discriminate.
  intros H E. injection E as Hxy E. apply orb_prop in H as [H|H].
  - subst y. rewrite Ascii.eqb_refl in H. discriminate.
  - exact (IH _ H E).
Qed.

Lemma ends_differ_apart (s t a b : string) :
  ends_differ s t = true -> a +:+ s <> b +:+ t.
Proof.
  intros H E. apply (f_equal list_ascii_of_string) in E.
  rewrite !list_ascii_of_string_app in E. apply (f_equal (@rev ascii)) in E.
  rewrite !rev_app_distr in E. exact (mismatch_apart _ _ _ _ H E).
Qed.

Lemma append_same_tail (a b t : string) : a +:+ t = b +:+ t -> a = b.
Proof.
  intros E. apply (f_equal list_ascii_of_string) in E.
  rewrite !list_ascii_of_string_app in E. apply app_inv_tail in E.
  rewrite <- (string_of_list_ascii_of_string a),
          <- (string_of_list_ascii_of_string b), E.
  reflexivity.
Qed.

(** No destination of the seeder is the source of another lock file. *)
Lemma seed_paths_apart (base_path o l l' : string) :
  In l lockfiles -> In l' lockfiles -> l' <> l ->
  o +:+ "/" +:+ l' <> base_path +:+ "/" +:+ l.
Proof.
  unfold lockfiles. simpl.
  intros [<-|[<-|[<-|[]]]] [<-|[<-|[<-|[]]]] Hne;
    try (exfalso; apply Hne; reflexivity);
    apply ends_differ_apart; reflexivity.
Qed.

(** ** [worker] and the executor *)

Section Orchestration.

Variable spawn : list string -> filesys -> spawned.
Variable base_path : string.

Lemma run_log_unchanged (args : list string) (w : world) :
  log (snd (run spawn args w)) = log w.
Proof.
  unfold run, bind, get_fs, put_fs, ret, raise.
  destruct (spawn args (fs w)) as [rc out err m'|e]; simpl; auto.
  destruct (rc =? 0)%Z; reflexivity.
Qed.

Lemma worker_log_unchanged (args : list string) (w : world) :
  log (snd (worker spawn args w)) = log w.
Proof.
  unfold worker. destruct (index_last args) as [dest|e]; [|reflexivity].
  unfold bind at 1. unfold try_except.
  pose proof (run_log_unchanged args w) as Hrun.
  destruct (run spawn args w) as [[[]|e] w1]; simpl in Hrun.
  - unfold open_rb_plus, bind, get_fs. simpl.
    destruct (fs w1 !! dest) as [f|]; simpl; [|exact Hrun].
    destruct (readable f && writable f); simpl; exact Hrun.
  - destruct (is_CalledProcessError e); simpl; exact Hrun.
Qed.

Lemma run_raises (args : list string) (w : world) :
  worker_future (fst (run spawn args w)) = true.
Proof.
  unfold run, bind, get_fs, put_fs, ret, raise. simpl.
  destruct (spawn args (fs w)) as [rc out err m'|e]; simpl; auto.
  destruct (rc =? 0)%Z; reflexivity.
Qed.

Lemma worker_raises (args : list string) (w : world) :
  worker_future (fst (worker spawn args w)) = true.
Proof.
  unfold worker. destruct (index_last args) as [dest|e] eqn:Hlast.
  - unfold bind at 1. unfold try_except.
    pose proof (run_raises args w) as Hrun.
    destruct (run spawn args w) as [[[]|e] w1]; simpl in Hrun.
    + unfold open_rb_plus, bind, get_fs. simpl.
      destruct (fs w1 !! dest) as [f|]; simpl; [|reflexivity].
      destruct (readable f && writable f); reflexivity.
    + destruct (is_CalledProcessError e); simpl; exact Hrun.
  - unfold index_last in Hlast. destruct (rev args); inversion Hlast.
    reflexivity.
Qed.

(** C1.  When the compiler exits with 0 and leaves the bytes [c] in the
    output file (the path given last), [worker] returns, and the output
    file then holds the line ["# DO NOT MODIFY. This file was generated
    with `make freeze-requirements`."], an empty line, and then exactly
    the bytes [c]; its permissions and every other file are as the
    compiler left them. *)
Theorem worker_stamps_header (args : list string) (dest : string)
  (w : world) (out err c : bytes) (m' : filesys) (f : file) :
  index_last args = Ret dest ->
  spawn args (fs w) = Exited 0 out err m' ->
  m' !! dest = Some f ->
  readable f && writable f = true ->
  data f = c ->
  let stamped_content :=
    list_byte_of_string
      "# DO NOT MODIFY. This file was generated with `make freeze-requirements`."
    ++ [x0a; x0a] ++ c in
  worker spawn args w
    = (Ret tt,
       World (<[dest := File stamped_content (readable f) (writable f)]> m')
             (log w))
  /\ data <$> (fs (snd (worker spawn args w)) !! dest) = Some stamped_content.
Proof.
  intros Hdest Hrun Hfile Hmode Hdata stamped_content.
  assert (Hcontent : stamped_content = header ++ c).
  { subst stamped_content. unfold header. rewrite <- app_assoc.
    reflexivity. }
  rewrite Hcontent. clear Hcontent stamped_content.
  assert (Hw : worker spawn args w
    = (Ret tt,
       World (<[dest := File (header ++ c) (readable f) (writable f)]> m')
             (log w))).
  { unfold worker. rewrite Hdest. generalize header as h. intros h.
    unfold bind, try_except, run, bind, get_fs. rewrite Hrun.
    cbn [put_fs ret Z.eqb fs log]. unfold open_rb_plus, bind, get_fs.
    cbn [fs]. rewrite Hfile, Hmode. subst c.
    unfold f_close, bind, get_fs, put_fs, ret, f_read, f_seek, f_write.
    cbn [f_path f_buf f_pos f_r f_w fs log firstn take Nat.sub repeat
         app Nat.add].
    rewrite drop_0, drop_ge by (rewrite length_app; lia).
    rewrite app_nil_r. reflexivity. }
  split; [exact Hw|].
  rewrite Hw. cbn [snd fs]. rewrite lookup_insert_eq. reflexivity.
Qed.

Lemma executor_submit_worker (args : list string) (w : world) :
  executor_submit (worker spawn) args w
  = (Ret (fst (worker spawn args w)),
     World (fs (snd (worker spawn args w)))
           (log w ++ [EvSubmit args (fst (worker spawn args w))])).
Proof.
  unfold executor_submit. rewrite <- (worker_log_unchanged args w).
  destruct (worker spawn args w) as [r w']. reflexivity.
Qed.

Lemma submit_all_spec (jobs : list (list string)) (w : world) :
  exists futs w',
    submit_all spawn jobs w = (Ret futs, w')
    /\ length futs = length jobs
    /\ forallb worker_future futs = true
    /\ log w' = log w ++ zip_with EvSubmit jobs futs.
Proof.
  revert w. induction jobs as [|job rest IH]; intros w.
  - exists [], w. simpl. rewrite app_nil_r. auto.
  - simpl. unfold bind at 1. rewrite executor_submit_worker.
    set (w1 := World _ _).
    destruct (IH w1) as (futs & w' & Hrest & Hlen & Hwf & Hlog).
    exists (fst (worker spawn job w) :: futs), w'.
    unfold bind. rewrite Hrest. simpl. repeat split; auto.
    + rewrite worker_raises, Hwf. reflexivity.
    + rewrite Hlog. subst w1. simpl. rewrite <- app_assoc. reflexivity.
Qed.

(** ** [check_futures] *)

Lemma report_decodable (rc : Z) (cmd : list string) (out err : bytes)
  (w : world) :
  decodable out && decodable err = true ->
  report rc cmd out err w = (Ret (report_text rc cmd out err), w).
Proof.
  intros H. apply andb_prop in H as [Ho He].
  unfold report, bind, bytes_decode. unfold decodable in *.
  rewrite Ho. simpl. rewrite He. reflexivity.
Qed.

Lemma report_undecodable (rc : Z) (cmd : list string) (out err : bytes)
  (w : world) :
  decodable out && decodable err = false ->
  report rc cmd out err w = (Raise UnicodeDecodeError, w).
Proof.
  intros H. unfold report, bind, bytes_decode. unfold decodable in *.
  destruct (utf8_scan Utf8Start out); simpl in *; [|reflexivity].
  rewrite H. reflexivity.
Qed.

Lemma check_futures_loop_drains (futures : list future) (rc : Z) (w : world) :
  forallb aggregable futures = true ->
  check_futures_loop rc futures w
  = (Ret (if existsb failed futures then 1 else rc),
     World (fs w) (log w ++ map EvPrint (reports futures))).
Proof.
  revert rc w. induction futures as [|fut rest IH]; intros rc w Hall.
  - simpl. rewrite app_nil_r, world_eta. reflexivity.
  - simpl in Hall. apply andb_prop in Hall as [Hfut Hrest].
    cbn [check_futures_loop]. unfold bind at 1. unfold try_except.
    destruct fut as [[]|e].
    + simpl. rewrite (IH rc w Hrest). reflexivity.
    + destruct e as [code cmd out err| | | | |]; simpl in Hfut;
        try discriminate.
      cbn [future_result bind raise is_CalledProcessError].
      unfold bind. rewrite (report_decodable _ _ _ _ _ Hfut).
      unfold print, emit, ret. rewrite (IH 1 _ Hrest). simpl.
      rewrite <- app_assoc. destruct (existsb failed rest); reflexivity.
Qed.

Lemma check_futures_loop_stops (pre post : list future) (bad : future)
  (rc : Z) (w : world) :
  forallb aggregable pre = true ->
  aggregable bad = false ->
  check_futures_loop rc (pre ++ bad :: post) w
  = (Raise (escaping bad),
     World (fs w) (log w ++ map EvPrint (reports pre))).
Proof.
  revert rc w. induction pre as [|fut rest IH]; intros rc w Hall Hbad.
  - simpl. rewrite app_nil_r, world_eta.
    unfold bind at 1. unfold try_except.
    destruct bad as [[]|e]; simpl in Hbad; [discriminate|].
    destruct e as [code cmd out err| | | | |]; simpl; try reflexivity.
    unfold bind. rewrite (report_undecodable _ _ _ _ _ Hbad).
    reflexivity.
  - simpl in Hall. apply andb_prop in Hall as [Hfut Hrest].
    cbn [check_futures_loop app]. unfold bind at 1. unfold try_except.
    destruct fut as [[]|e].
    + simpl. rewrite (IH rc w Hrest Hbad). reflexivity.
    + destruct e as [code cmd out err| | | | |]; simpl in Hfut;
        try discriminate.
      cbn [future_result bind raise is_CalledProcessError].
      unfold bind. rewrite (report_decodable _ _ _ _ _ Hfut).
      unfold print, emit, ret. rewrite (IH 1 _ Hrest Hbad). simpl.
      rewrite <- app_assoc. reflexivity.
Qed.

Lemma first_not_aggregable (futures : list future) :
  forallb aggregable futures = false ->
  exists pre bad post,
    futures = pre ++ bad :: post
    /\ forallb aggregable pre = true
    /\ aggregable bad = false.
Proof.
  induction futures as [|fut rest IH]; simpl; [discriminate|].
  destruct (aggregable fut) eqn:Hfut; simpl; intros H.
  - destruct (IH H) as (pre & bad & post & -> & Hpre & Hbad).
    exists (fut :: pre), bad, post. simpl. rewrite Hfut. auto.
  - exists [], fut, rest. auto.
Qed.

(** ** Seeding *)

Lemma copyfile_log (src dst : string) (w : world) :
  log (snd (copyfile src dst w)) = log w ++ [EvCopy src dst].
Proof.
  unfold copyfile, bind, emit, get_fs, put_fs, raise. simpl.
  destruct (fs w !! src) as [f|]; simpl; [|reflexivity].
  destruct (String.eqb src dst); simpl; [reflexivity|].
  destruct (negb (readable f)); simpl; [reflexivity|].
  destruct (fs w !! dst) as [g|]; simpl; [|reflexivity].
  destruct (writable g); reflexivity.
Qed.

Lemma for_each_copy_log (out : string) (names : list string) (w : world) :
  exists k,
    log (snd (for_each names (fun lockfile =>
                copyfile (base_path +:+ "/" +:+ lockfile)
                         (out +:+ "/" +:+ lockfile)) w))
    = log w ++ copy_events
        (take k (map (fun lockfile => (base_path +:+ "/" +:+ lockfile,
                                       out +:+ "/" +:+ lockfile)) names))
    /\ (returned (fst (for_each names (fun lockfile =>
                copyfile (base_path +:+ "/" +:+ lockfile)
                         (out +:+ "/" +:+ lockfile)) w)) = true ->
        k = length names).
Proof.
  revert w. induction names as [|name rest IH]; intros w.
  - exists 0%nat. simpl. rewrite app_nil_r. auto.
  - cbn [for_each]. unfold bind.
    pose proof (copyfile_log (base_path +:+ "/" +:+ name)
                  (out +:+ "/" +:+ name) w) as Hlog.
    destruct (copyfile _ _ w) as [[[]|e] w1]; simpl in Hlog.
    + destruct (IH w1) as (k & Hk & Hret). exists (S k). split.
      * rewrite Hk, Hlog, <- app_assoc. reflexivity.
      * intros H. simpl. f_equal. apply Hret. exact H.
    + exists 1%nat. simpl. split; [exact Hlog|discriminate].
Qed.

Lemma seeding_events (outdir : option string) (w : world) :
  exists pairs,
    log (snd (seeding base_path outdir w)) = log w ++ copy_events pairs
    /\ (forall out w1, seeding base_path outdir w = (Ret out, w1) ->
         out = out_path base_path outdir
         /\ pairs = match outdir with
                    | None => []
                    | Some o => seed_pairs base_path o
                    end).
Proof.
  destruct outdir as [o|]; unfold seeding.
  - unfold bind.
    destruct (for_each_copy_log o lockfiles w) as (k & Hk & Hret).
    destruct (for_each _ _ w) as [[[]|e] w1]; cbn [fst snd returned] in *.
    + exists (take k (seed_pairs base_path o)). split; [exact Hk|].
      intros out w2 [= <- <-]. split; [reflexivity|].
      rewrite (Hret eq_refl). reflexivity.
    + exists (take k (seed_pairs base_path o)). split; [exact Hk|].
      intros out w2 [=].
  - exists []. cbn [ret snd copy_events map]. rewrite app_nil_r.
    split; [reflexivity|]. intros out w1 [= <- <-]. auto.
Qed.

Lemma copyfile_missing (src dst : string) (w : world) :
  fs w !! src = None ->
  copyfile src dst w
  = (Raise (OSError (FileNotFoundError src)),
     World (fs w) (log w ++ [EvCopy src dst])).
Proof.
  intros H. unfold copyfile, bind, emit, get_fs. cbn [fs log].
  rewrite H. reflexivity.
Qed.

Lemma copyfile_onto_itself (path : string) (w : world) :
  exists e w', copyfile path path w = (Raise (OSError e), w').
Proof.
  unfold copyfile, bind, emit, get_fs. cbn [fs log].
  destruct (fs w !! path) as [f|]; [|eauto].
  rewrite String.eqb_refl. eauto.
Qed.

Lemma copyfile_raises (src dst : string) (w : world) (e : exn) (w' : world) :
  copyfile src dst w = (Raise e, w') -> exists o, e = OSError o.
Proof.
  unfold copyfile, bind, emit, get_fs, put_fs, raise. cbn [fs log].
  destruct (fs w !! src) as [f|]; [|intros [= <- _]; eauto].
  destruct (String.eqb src dst); [intros [= <- _]; eauto|].
  destruct (negb (readable f)); [intros [= <- _]; eauto|].
  destruct (fs w !! dst) as [g|]; [|discriminate].
  destruct (writable g); [discriminate|intros [= <- _]; eauto].
Qed.

Lemma copyfile_returns (src dst : string) (w w' : world) :
  copyfile src dst w = (Ret tt, w') ->
  exists f r,
    fs w !! src = Some f
    /\ fs w' = <[dst := File (data f) r true]> (fs w)
    /\ (r = true \/ exists g, fs w !! dst = Some g /\ r = readable g).
Proof.
  unfold copyfile, bind, emit, get_fs, put_fs, raise. cbn [fs log].
  destruct (fs w !! src) as [f|]; [|discriminate].
  destruct (String.eqb src dst); [discriminate|].
  destruct (negb (readable f)); [discriminate|].
  destruct (fs w !! dst) as [g|] eqn:Hdst.
  - destruct (writable g); [|discriminate].
    intros [= <-]. exists f, (readable g). cbn [fs]. eauto 6.
  - intros [= <-]. exists f, true. cbn [fs]. auto.
Qed.

Lemma copyfile_frame (src dst path : string) (w : world) :
  path <> dst -> fs (snd (copyfile src dst w)) !! path = fs w !! path.
Proof.
  intros Hne. unfold copyfile, bind, emit, get_fs, put_fs, raise.
  cbn [fs log].
  destruct (fs w !! src) as [f|]; [|reflexivity].
  destruct (String.eqb src dst); [reflexivity|].
  destruct (negb (readable f)); [reflexivity|].
  destruct (fs w !! dst) as [g|].
  - destruct (writable g); [|reflexivity].
    cbn [snd fs]. apply lookup_insert_ne. congruence.
  - cbn [snd fs]. apply lookup_insert_ne. congruence.
Qed.

(** The loop of the seeder over a list of names. *)
Lemma seeding_loop_frame (o path : string) (names : list string)
  (w : world) :
  ~ In path (map (fun lockfile => o +:+ "/" +:+ lockfile) names) ->
  fs (snd (for_each names (fun lockfile =>
             copyfile (base_path +:+ "/" +:+ lockfile)
                      (o +:+ "/" +:+ lockfile)) w)) !! path
  = fs w !! path.
Proof.
  revert w. induction names as [|name rest IH]; intros w Hnot;
    [reflexivity|].
  cbn [for_each]. unfold bind.
  pose proof (copyfile_frame (base_path +:+ "/" +:+ name)
                (o +:+ "/" +:+ name) path w) as Hframe.
  destruct (copyfile _ _ w) as [[[]|e] w1]; cbn [snd] in *.
  - rewrite IH, Hframe; auto; intros H; apply Hnot; simpl; auto.
  - apply Hframe. intros H. apply Hnot. simpl. auto.
Qed.

Lemma seeding_loop_raises (o : string) (names : list string) (w : world)
  (e : exn) (w' : world) :
  for_each names (fun lockfile =>
    copyfile (base_path +:+ "/" +:+ lockfile) (o +:+ "/" +:+ lockfile)) w
  = (Raise e, w') ->
  exists err, e = OSError err.
Proof.
  revert w. induction names as [|name rest IH]; intros w;
    [discriminate|].
  cbn [for_each]. unfold bind.
  destruct (copyfile _ _ w) as [[[]|e0] w1] eqn:Hcopy.
  - apply IH.
  - intros [= <- _]. exact (copyfile_raises _ _ _ _ _ Hcopy).
Qed.

Lemma seeding_loop_missing (o name : string) (names : list string)
  (w : world) :
  In name names ->
  fs w !! (base_path +:+ "/" +:+ name) = None ->
  (forall name', In name' names -> name' <> name ->
     o +:+ "/" +:+ name' <> base_path +:+ "/" +:+ name) ->
  returned (fst (for_each names (fun lockfile =>
    copyfile (base_path +:+ "/" +:+ lockfile) (o +:+ "/" +:+ lockfile)) w))
  = false.
Proof.
  revert w. induction names as [|head rest IH]; intros w Hin Hmiss Hapart;
    [destruct Hin|].
  cbn [for_each]. unfold bind.
  destruct (copyfile _ _ w) as [[[]|e0] w1] eqn:Hcopy; [|reflexivity].
  destruct (copyfile_returns _ _ _ _ Hcopy) as (f & r & Hsrc & Hfs & _).
  destruct (decide (head = name)) as [->|Hne].
  { rewrite Hmiss in Hsrc. discriminate. }
  apply IH.
  - destruct Hin as [E|Hin]; [contradiction|exact Hin].
  - rewrite Hfs, lookup_insert_ne; [exact Hmiss|].
    apply Hapart; simpl; auto.
  - intros name' Hin'. apply Hapart. simpl. auto.
Qed.

(** ** [main] is the staged orchestrator *)

Lemma main_staged (repo : string) (outdir : option string) (w : world) :
  main spawn base_path repo outdir w
  = staged spawn base_path (String.eqb repo "getsentry") outdir w.
Proof.
  unfold main, staged.
  unfold bind at 1. symmetry. unfold bind at 1. symmetry.
  destruct (seeding base_path outdir w) as [[out|e] w1]; [|reflexivity].
  destruct (String.eqb repo "getsentry");
    cbn [negb stage1_jobs stage2_jobs submit_all app overrides zip_with];
    unfold bind, executor_submit, executor_shutdown, emit, ret;
    cbn -[Z.eqb check_futures worker];
    repeat (run_step; cbn -[Z.eqb check_futures worker]); reflexivity.
Qed.

Lemma none_failed (futures : list future) :
  existsb failed futures = false ->
  forallb returned futures = true /\ reports futures = [].
Proof.
  induction futures as [|[[]|e] rest IH]; simpl; auto; discriminate.
Qed.

Lemma staged_shape (merge : bool) (outdir : option string) (w : world)
  (out : string) (w1 : world) :
  seeding base_path outdir w = (Ret out, w1) ->
  let (r, w') := staged spawn base_path merge outdir w in
  exists evs,
    log w' = log w1 ++ evs
    /\ run_shape (stage1_jobs base_path merge out)
                 (stage2_jobs base_path out) merge r evs.
Proof.
  intros Hseed. unfold staged. unfold bind at 1. rewrite Hseed.
  destruct (submit_all_spec (stage1_jobs base_path merge out) w1)
    as (futs1 & w2 & Hsub1 & Hlen1 & Hwf1 & Hlog1).
  unfold bind at 1. rewrite Hsub1. unfold check_futures.
  destruct (forallb aggregable futs1) eqn:Hagg1.
  - unfold bind at 1. rewrite (check_futures_loop_drains _ _ _ Hagg1).
    destruct (existsb failed futs1) eqn:Hfail1.
    + cbn [negb Z.eqb]. unfold bind, executor_shutdown, emit, ret.
      cbn [fst snd fs log].
      eexists. split.
      * rewrite Hlog1, <- !app_assoc. reflexivity.
      * replace 1%Z with (status_of futs1)
          by (unfold status_of; rewrite Hfail1; reflexivity).
        apply Stage1Ends; auto; rewrite Hfail1; reflexivity.
    + cbn [negb Z.eqb]. destruct (none_failed _ Hfail1) as [Hret1 Hrep1].
      destruct merge.
      * set (w2' := World _ _).
        destruct (submit_all_spec (stage2_jobs base_path out) w2')
          as (futs2 & w3 & Hsub2 & Hlen2 & Hwf2 & Hlog2).
        unfold bind at 1. rewrite Hsub2.
        destruct (forallb aggregable futs2) eqn:Hagg2.
        -- unfold bind at 1. rewrite (check_futures_loop_drains _ _ _ Hagg2).
           unfold bind, executor_shutdown, emit, ret. cbn [fst snd fs log].
           eexists. split.
           ++ rewrite Hlog2. subst w2'. cbn [log]. rewrite Hlog1, Hrep1.
              cbn [map]. rewrite app_nil_r, <- !app_assoc. reflexivity.
           ++ replace (if existsb failed futs2 then 1 else 0)%Z
                with (status_of futs2) by reflexivity.
              apply Stage2Ends; auto.
        -- destruct (first_not_aggregable _ Hagg2)
             as (pre & bad & post & Heq & Hpre & Hbad).
           unfold bind at 1. rewrite Heq.
           rewrite (check_futures_loop_stops _ _ _ _ _ Hpre Hbad).
           cbn [fst snd fs log].
           eexists. split.
           ++ rewrite Hlog2. subst w2'. cbn [log]. rewrite Hlog1, Hrep1.
              cbn [map]. rewrite app_nil_r, <- !app_assoc. reflexivity.
           ++ apply Stage2Raises with (post := post); auto.
      * unfold bind, executor_shutdown, emit, ret. cbn [fst snd fs log].
        eexists. split.
        -- rewrite Hlog1, <- !app_assoc. reflexivity.
        -- replace 0%Z with (status_of futs1)
             by (unfold status_of; rewrite Hfail1; reflexivity).
           apply Stage1Ends; auto; rewrite Hfail1; reflexivity.
  - destruct (first_not_aggregable _ Hagg1)
      as (pre & bad & post & Heq & Hpre & Hbad).
    unfold bind at 1. rewrite Heq.
    rewrite (check_futures_loop_stops _ _ _ _ _ Hpre Hbad).
    cbn [fst snd fs log].
    eexists. split.
    + rewrite Hlog1, <- !app_assoc. reflexivity.
    + apply Stage1Raises with (post := post); auto.
Qed.

(** The run of [main]: it raises what seeding raises, before any
    submission; otherwise it has one of the shapes of [run_shape]. *)
Lemma main_seeding_raises (repo : string) (outdir : option string)
  (w : world) (e : exn) (w1 : world) :
  seeding base_path outdir w = (Raise e, w1) ->
  main spawn base_path repo outdir w = (Raise e, w1).
Proof.
  intros Hseed. unfold main. unfold bind at 1. rewrite Hseed. reflexivity.
Qed.

Lemma main_shape (repo : string) (outdir : option string) (w : world)
  (out : string) (w1 : world) :
  seeding base_path outdir w = (Ret out, w1) ->
  exists evs,
    run_log (main spawn base_path repo outdir) w
    = run_log (seeding base_path outdir) w ++ evs
    /\ run_shape (stage1_jobs base_path (String.eqb repo "getsentry") out)
                 (stage2_jobs base_path out) (String.eqb repo "getsentry")
                 (fst (main spawn base_path repo outdir w)) evs.
Proof.
  intros Hseed.
  pose proof (staged_shape (String.eqb repo "getsentry") outdir w out w1
                Hseed) as Hstaged.
  rewrite <- main_staged in Hstaged.
  destruct (main spawn base_path repo outdir w) as [r w'] eqn:Hmain.
  destruct Hstaged as (evs & Hlog & Hshape).
  destruct (seeding_events outdir w) as (pairs & Hpairs & _).
  rewrite Hseed in Hpairs. cbn [snd] in Hpairs.
  exists evs. split.
  - rewrite (run_log_app (seeding base_path outdir) w (copy_events pairs))
      by (rewrite Hseed; exact Hpairs).
    apply run_log_app. rewrite Hmain. cbn [snd].
    rewrite Hlog, Hpairs, <- app_assoc. reflexivity.
  - exact Hshape.
Qed.

(** ** The aggregator *)

Lemma check_futures_returns (futures : list future) (w : world) :
  forallb aggregable futures = true ->
  check_futures futures w
  = (Ret (status_of futures),
     World (fs w) (log w ++ map EvPrint (reports futures))).
Proof.
  intros Hall. unfold check_futures.
  rewrite (check_futures_loop_drains _ _ _ Hall). reflexivity.
Qed.

(** C5.  When every job of the stage either returned or raised
    [CalledProcessError] with streams that decode, the aggregator goes
    through all the futures in submission order: it returns 1 if a job
    failed and 0 otherwise, and it has printed, in order, one report for
    each failed job, made of the command tokens, the exit code and the
    two captured streams. *)
Theorem check_futures_drains (futures : list future) (w : world) :
  forallb aggregable futures = true ->
  check_futures futures w
    = (Ret (status_of futures),
       World (fs w) (log w ++ map EvPrint (reports futures)))
  /\ printed (run_log (check_futures futures) w) = reports futures
  /\ length (reports futures) = length (List.filter failed futures).
Proof.
  intros Hall. pose proof (check_futures_returns futures w Hall) as Heq.
  split; [exact Heq|]. split.
  - rewrite (run_log_app _ w (map EvPrint (reports futures)))
      by (rewrite Heq; reflexivity).
    apply printed_prints.
  - apply reports_count, Hall.
Qed.

(** At the first future it does not get past, the aggregator stops: the
    exception leaves [check_futures] once the reports of the earlier
    failures are printed, and the later futures are not looked at. *)
Lemma check_futures_stops (pre post : list future) (bad : future)
  (w : world) :
  forallb aggregable pre = true ->
  aggregable bad = false ->
  check_futures (pre ++ bad :: post) w
  = (Raise (escaping bad),
     World (fs w) (log w ++ map EvPrint (reports pre))).
Proof. apply check_futures_loop_stops. Qed.

(** ** Runs of [main] *)

(** Either seeding raises, and the run ends there with nothing but
    attempted copies, or the run goes on in one of the four shapes. *)
Lemma main_analysis (repo : string) (outdir : option string) (w : world) :
  let c := main spawn base_path repo outdir in
  (exists e pairs,
      fst (seeding base_path outdir w) = Raise e
      /\ fst (c w) = Raise e
      /\ run_log c w = copy_events pairs)
  \/ (exists w1 evs,
         seeding base_path outdir w = (Ret (out_path base_path outdir), w1)
         /\ run_log c w
            = copy_events (match outdir with
                           | None => []
                           | Some o => seed_pairs base_path o
                           end) ++ evs
         /\ run_shape
              (stage1_jobs base_path (String.eqb repo "getsentry")
                 (out_path base_path outdir))
              (stage2_jobs base_path (out_path base_path outdir))
              (String.eqb repo "getsentry") (fst (c w)) evs).
Proof.
  intros c. subst c.
  destruct (seeding_events outdir w) as (pairs & Hlog & Hpairs).
  destruct (seeding base_path outdir w) as [[out|e] w1] eqn:Hseed.
  - right. destruct (Hpairs out w1 eq_refl) as [-> ->].
    destruct (main_shape repo outdir w _ w1 Hseed) as (evs & Hrun & Hshape).
    exists w1, evs. split; [reflexivity|]. split; [|exact Hshape].
    rewrite Hrun. f_equal. apply run_log_app. rewrite Hseed. exact Hlog.
  - left. exists e, pairs. split; [reflexivity|].
    rewrite (main_seeding_raises repo outdir w e w1 Hseed).
    split; [reflexivity|]. cbn [snd] in Hlog.
    apply run_log_app. rewrite (main_seeding_raises repo outdir w e w1 Hseed).
    exact Hlog.
Qed.

Lemma existsb_take {A} (p : A -> bool) (n : nat) (xs : list A) :
  existsb p (take n xs) = true -> existsb p xs = true.
Proof.
  revert n. induction xs as [|x xs IH]; intros [|n]; simpl; try discriminate.
  intros H. apply orb_prop in H as [H|H]; rewrite ?H; auto.
  rewrite (IH _ H). apply orb_true_r.
Qed.

Lemma status_of_failed (futures : list future) :
  existsb failed futures = true -> status_of futures = 1.
Proof. intros H. unfold status_of. rewrite H. reflexivity. Qed.

Lemma status_of_zero (futures : list future) :
  status_of futures = 0 <-> forallb returned futures = true.
Proof.
  unfold status_of. rewrite existsb_failed_returned.
  destruct (forallb returned futures); simpl; split; auto; discriminate.
Qed.

Lemma escaping_cases (bad : future) :
  aggregable bad = false ->
  (exists e, bad = Raise e /\ is_CalledProcessError e = false
             /\ escaping bad = e)
  \/ (exists rc cmd out err,
        bad = Raise (CalledProcessError rc cmd out err)
        /\ decodable out && decodable err = false
        /\ escaping bad = UnicodeDecodeError).
Proof.
  destruct bad as [[]|e]; simpl; [discriminate|].
  destruct e; intros H; try (left; eexists; repeat split; reflexivity).
  right. do 4 eexists. repeat split. exact H.
Qed.

(** C2.  In the merge mode, when a stage-1 job failed, the jobs submitted
    in the whole run are the two stage-1 jobs and no other.  When the
    aggregator gets past every stage-1 future, [main] returns the
    stage-1 status, 1, and the shutdown of the pool is the last thing it
    did.  Otherwise [main] raises at the first stage-1 future, in
    submission order, that the aggregator does not get past: the
    exception of that future if it is not a [CalledProcessError],
    [UnicodeDecodeError] if it is one whose captured stream does not
    decode; the reports of the failures before it are printed, and the
    pool is not shut down. *)
Theorem stage1_failure_blocks_stage2 (outdir : option string) (w : world) :
  let c := main spawn base_path "getsentry" outdir in
  existsb failed (take 2 (futures_of (run_log c w))) = true ->
  jobs_of (run_log c w)
    = [ ["pip-compile"; "--no-header"; "--no-annotate"; "--allow-unsafe";
         "-q"; base_path +:+ "/requirements-base.txt";
         "-o"; out_path base_path outdir +:+ "/requirements-frozen.txt"];
        ["pip-compile"; "--no-header"; "--no-annotate"; "--allow-unsafe";
         "-q"; base_path +:+ "/requirements-base.txt";
         base_path +:+ "/requirements-dev.txt";
         "-o"; out_path base_path outdir +:+ "/requirements-dev-frozen.txt"] ]
  /\ (forallb aggregable (futures_of (run_log c w)) = true ->
      fst (c w) = Ret 1 /\ last (run_log c w) = Some EvShutdown)
  /\ (forallb aggregable (futures_of (run_log c w)) = false ->
      exists pre bad post,
        futures_of (run_log c w) = pre ++ bad :: post
        /\ forallb aggregable pre = true
        /\ ((exists e,
                bad = Raise e /\ is_CalledProcessError e = false
                /\ fst (c w) = Raise e)
            \/ (exists rc cmd out err,
                  bad = Raise (CalledProcessError rc cmd out err)
                  /\ decodable out && decodable err = false
                  /\ fst (c w) = Raise UnicodeDecodeError))
        /\ printed (run_log c w) = reports pre
        /\ ~ In EvShutdown (run_log c w)).
Proof.
  intros c Hfail. subst c.
  destruct (main_analysis "getsentry" outdir w)
    as [(e & pairs & _ & Hr & Hlog) | (w1 & evs & _ & Hlog & Hshape)];
    rewrite Hlog in *; clear Hlog.
  - autorewrite with events in Hfail. discriminate.
  - change (String.eqb "getsentry" "getsentry") with true in Hshape.
    remember (fst (main spawn base_path "getsentry" outdir w)) as r.
    destruct Hshape
      as [futs1 pre post bad Hlen1 Hwf1 Heq Hpre Hbad
         |futs1 Hlen1 Hwf1 Hagg1 Hor
         |futs1 futs2 pre post bad _ Hlen1 Hret1 Hlen2 Hwf2 Heq Hpre Hbad
         |futs1 futs2 _ Hlen1 Hret1 Hlen2 Hwf2 Hagg2];
      autorewrite with events in *.
    + split; [reflexivity|]. split.
      * rewrite Heq, (not_all_aggregable _ _ _ Hbad). discriminate.
      * intros _. exists pre, bad, post.
        split; [exact Heq|]. split; [exact Hpre|]. split; [|split].
        -- destruct (escaping_cases bad Hbad)
             as [(e & -> & He & Hesc)|(rc & cmd & out & err & -> & Hd & Hesc)];
             rewrite Hesc; [left|right]; eauto 10.
        -- reflexivity.
        -- rewrite !in_app_iff. intros [H|[H|H]].
           ++ exact (no_shutdown_in_copies _ H).
           ++ exact (no_shutdown_in_submits _ _ H).
           ++ exact (no_shutdown_in_prints _ H).
    + split; [reflexivity|]. split.
      * intros _. split.
        -- rewrite (status_of_failed _ (existsb_take _ _ _ Hfail)).
           reflexivity.
        -- rewrite !app_assoc. apply last_snoc.
      * rewrite Hagg1. discriminate.
    + rewrite take_app_length' in Hfail by (symmetry; exact Hlen1).
      rewrite existsb_failed_returned, Hret1 in Hfail. discriminate.
    + rewrite take_app_length' in Hfail by (symmetry; exact Hlen1).
      rewrite existsb_failed_returned, Hret1 in Hfail. discriminate.
Qed.

(** C3.  Whenever [main] returns, the value is 0 if every submitted job
    succeeded and 1 if any of them failed, whatever their number and
    their exit codes; and [main] does return when seeding does not raise
    and the aggregator gets past every future of the run. *)
Theorem main_status (repo : string) (outdir : option string) (w : world) :
  let c := main spawn base_path repo outdir in
  (returned (fst (seeding base_path outdir w)) = true ->
   forallb aggregable (futures_of (run_log c w)) = true ->
   returned (fst (c w)) = true)
  /\ (forall rc, fst (c w) = Ret rc ->
        (rc = 0 <-> forallb returned (futures_of (run_log c w)) = true)
        /\ (existsb failed (futures_of (run_log c w)) = true -> rc = 1)).
Proof.
  intros c. subst c.
  destruct (main_analysis repo outdir w)
    as [(e & pairs & Hseed & Hr & Hlog) | (w1 & evs & _ & Hlog & Hshape)];
    rewrite Hlog; clear Hlog.
  - rewrite Hseed, Hr. split; [discriminate|]. intros rc [=].
  - remember (fst (main spawn base_path repo outdir w)) as r.
    destruct Hshape
      as [futs1 pre post bad Hlen1 Hwf1 Heq Hpre Hbad
         |futs1 Hlen1 Hwf1 Hagg1 Hor
         |futs1 futs2 pre post bad _ Hlen1 Hret1 Hlen2 Hwf2 Heq Hpre Hbad
         |futs1 futs2 _ Hlen1 Hret1 Hlen2 Hwf2 Hagg2];
      autorewrite with events.
    + split; [|intros rc [=]]. intros _.
      rewrite Heq, (not_all_aggregable _ _ _ Hbad). discriminate.
    + split; [reflexivity|]. intros rc [= <-]. split.
      * apply status_of_zero.
      * apply status_of_failed.
    + split; [|intros rc [=]]. intros _.
      rewrite forallb_app, Heq, (not_all_aggregable _ _ _ Hbad), andb_false_r.
      discriminate.
    + split; [reflexivity|]. intros rc [= <-].
      rewrite <- (status_of_returned futs1 futs2 Hret1). split.
      * apply status_of_zero.
      * apply status_of_failed.
Qed.

(** C4.  When the compiler exited with 0 but the output file cannot be
    opened for reading and writing, [worker] raises the [OSError] of
    [open] and leaves the file system as the compiler left it.  That
    failure is not swallowed: in a run in which a submitted job raised
    an [OSError], an exception that is not a [CalledProcessError] leaves
    [main], so [main] returns no status, least of all 0, and the status
    the process ends with is 1.  That is the status the process ends with
    when [main] returns after the compiler failed on a job. *)
Theorem stamp_failure_escapes :
  (forall (args : list string) (dest : string) (w : world)
          (out err : bytes) (m' : filesys),
      index_last args = Ret dest ->
      spawn args (fs w) = Exited 0 out err m' ->
      openable m' dest = false ->
      exists e,
        worker spawn args w = (Raise (OSError e), World m' (log w))
        /\ (e = FileNotFoundError dest \/ e = PermissionError dest))
  /\ (forall (repo : string) (outdir : option string) (w : world)
             (args : list string) (e : oserror),
        let c := main spawn base_path repo outdir in
        In (args, Raise (OSError e)) (submitted (run_log c w)) ->
        exists e',
          fst (c w) = Raise e'
          /\ is_CalledProcessError e' = false
          /\ exit_status (exit_with (fst (c w))) = 1
          /\ ~ In EvShutdown (run_log c w))
  /\ (forall (repo : string) (outdir : option string) (w : world) (rc : Z),
        let c := main spawn base_path repo outdir in
        fst (c w) = Ret rc ->
        existsb failed (futures_of (run_log c w)) = true ->
        exit_status (exit_with (fst (c w))) = 1).
Proof.
  split; [|split].
  - intros args dest w out err m' Hdest Hrun Hopen.
    unfold worker. rewrite Hdest.
    unfold bind, try_except, run, bind, get_fs. rewrite Hrun.
    cbn [put_fs ret Z.eqb fs log]. unfold open_rb_plus, bind, get_fs.
    cbn [fs]. unfold openable in Hopen.
    destruct (m' !! dest) as [f|].
    + rewrite Hopen. cbn [raise]. eauto.
    + cbn [raise]. eauto.
  - intros repo outdir w args e c Hin. subst c.
    assert (Hbadcase : forall futs pre post bad,
               futs = pre ++ bad :: post ->
               aggregable bad = false ->
               forallb worker_future futs = true ->
               is_CalledProcessError (escaping bad) = false
               /\ exit_status (exit_with (Raise (escaping bad))) = 1).
    { intros futs pre post bad -> Hbad Hwf.
      rewrite forallb_app in Hwf. simpl in Hwf.
      apply andb_prop in Hwf as [_ Hwf]. apply andb_prop in Hwf as [Hwf _].
      destruct bad as [[]|[]]; simpl in *; try discriminate; auto. }
    assert (Hnot : forall jobs futs,
               length futs = length jobs ->
               In (args, Raise (OSError e))
                 (submitted (zip_with EvSubmit jobs futs)) ->
               forallb aggregable futs = false).
    { intros jobs futs Hlen H. rewrite submitted_submits in H by exact Hlen.
      apply (in_map snd) in H. rewrite snd_zip in H by lia. simpl in H.
      apply in_split in H as (pre & post & ->).
      apply not_all_aggregable. reflexivity. }
    destruct (main_analysis repo outdir w)
      as [(e0 & pairs & Hseed & Hr & Hlog) | (w1 & evs & _ & Hlog & Hshape)];
      rewrite Hlog in *; clear Hlog.
    + rewrite submitted_copies in Hin. destruct Hin.
    + rewrite submitted_app, submitted_copies in Hin. cbn [app] in Hin.
      remember (fst (main spawn base_path repo outdir w)) as r.
      destruct Hshape
        as [futs1 pre post bad Hlen1 Hwf1 Heq Hpre Hbad
           |futs1 Hlen1 Hwf1 Hagg1 Hor
           |futs1 futs2 pre post bad _ Hlen1 Hret1 Hlen2 Hwf2 Heq Hpre Hbad
           |futs1 futs2 _ Hlen1 Hret1 Hlen2 Hwf2 Hagg2].
      * destruct (Hbadcase _ _ _ _ Heq Hbad Hwf1) as [Hcpe Hexit].
        exists (escaping bad). repeat split; auto.
        rewrite !in_app_iff. intros [H|[H|H]].
        -- exact (no_shutdown_in_copies _ H).
        -- exact (no_shutdown_in_submits _ _ H).
        -- exact (no_shutdown_in_prints _ H).
      * exfalso. rewrite !submitted_app, submitted_prints in Hin.
        cbn [submitted omap app] in Hin. rewrite app_nil_r in Hin.
        rewrite (Hnot _ _ Hlen1 Hin) in Hagg1. discriminate.
      * destruct (Hbadcase _ _ _ _ Heq Hbad Hwf2) as [Hcpe Hexit].
        exists (escaping bad). repeat split; auto.
        rewrite !in_app_iff. intros [H|[H|[H|H]]].
        -- exact (no_shutdown_in_copies _ H).
        -- exact (no_shutdown_in_submits _ _ H).
        -- exact (no_shutdown_in_submits _ _ H).
        -- exact (no_shutdown_in_prints _ H).
      * exfalso. rewrite !submitted_app, submitted_prints in Hin.
        cbn [submitted omap app] in Hin. rewrite app_nil_r in Hin.
        apply in_app_or in Hin as [Hin|Hin].
        -- pose proof (Hnot _ _ Hlen1 Hin) as Hno.
           assert (forallb aggregable futs1 = true) as Hyes.
           { clear -Hret1. induction futs1 as [|[[]|?] ? IH]; simpl in *;
               auto; discriminate. }
           rewrite Hyes in Hno. discriminate.
        -- rewrite (Hnot _ _ Hlen2 Hin) in Hagg2. discriminate.
  - intros repo outdir w rc c Hret Hfail. subst c. rewrite Hret.
    cbn [exit_with exit_status].
    destruct (main_analysis repo outdir w)
      as [(e0 & pairs & Hseed & Hr & Hlog) | (w1 & evs & _ & Hlog & Hshape)];
      rewrite Hlog in Hfail; clear Hlog.
    + rewrite Hr in Hret. discriminate.
    + rewrite Hret in Hshape.
      remember (@Ret Z rc) as r.
      destruct Hshape
        as [futs1 pre post bad Hlen1 Hwf1 Heq Hpre Hbad
           |futs1 Hlen1 Hwf1 Hagg1 Hor
           |futs1 futs2 pre post bad _ Hlen1 Hret1 Hlen2 Hwf2 Heq Hpre Hbad
           |futs1 futs2 _ Hlen1 Hret1 Hlen2 Hwf2 Hagg2];
        try discriminate; autorewrite with events in Hfail;
        injection Heqr as <-.
      * apply status_of_failed. exact Hfail.
      * rewrite <- (status_of_returned futs1 futs2 Hret1).
        apply status_of_failed. exact Hfail.
Qed.

(** ** The jobs of the two modes *)

Lemma check_futures_result (futures : list future) (w w' : world) :
  fst (check_futures futures w) = fst (check_futures futures w').
Proof.
  destruct (forallb aggregable futures) eqn:Hagg.
  - rewrite !check_futures_returns by assumption. reflexivity.
  - destruct (first_not_aggregable _ Hagg)
      as (pre & bad & post & -> & Hpre & Hbad).
    rewrite !check_futures_stops by assumption. reflexivity.
Qed.

Lemma prints_not_submits (texts : list string) :
  existsb is_submit (map EvPrint texts) = false.
Proof. induction texts; simpl; auto. Qed.

(** C8.  A run for a repository other than getsentry in which seeding
    goes through, as it always does without [outdir], submits exactly
    three jobs; each is the base flags pip-compile --no-header
    --no-annotate --allow-unsafe -q, then its input files, then ["-o"]
    and the output path.  The three submissions come one after the
    other, nothing is submitted after them, and the result of [main] is
    the aggregate of these three futures: there is one stage and no
    second one.  When seeding raises, no job is submitted and [main]
    returns nothing. *)
Theorem plain_run_single_stage (repo : string) (outdir : option string)
  (w : world) :
  repo <> "getsentry" ->
  let c := main spawn base_path repo outdir in
  let out := out_path base_path outdir in
  let flags :=
    ["pip-compile"; "--no-header"; "--no-annotate"; "--allow-unsafe"; "-q"] in
  let jobs :=
    [ flags ++ [base_path +:+ "/requirements-base.txt"]
        ++ ["-o"; out +:+ "/requirements-frozen.txt"];
      flags ++ [base_path +:+ "/requirements-base.txt";
                base_path +:+ "/requirements-dev.txt"]
        ++ ["-o"; out +:+ "/requirements-dev-frozen.txt"];
      flags ++ [base_path +:+ "/requirements-dev.txt"]
        ++ ["-o"; out +:+ "/requirements-dev-only-frozen.txt"] ] in
  (outdir = None -> returned (fst (seeding base_path outdir w)) = true)
  /\ (returned (fst (seeding base_path outdir w)) = true ->
      jobs_of (run_log c w) = jobs
      /\ exists futs tail,
           run_log c w
           = copy_events (copied (run_log c w))
               ++ zip_with EvSubmit jobs futs ++ tail
           /\ length futs = 3%nat
           /\ existsb is_submit tail = false
           /\ forall w', fst (c w) = fst (check_futures futs w'))
  /\ (returned (fst (seeding base_path outdir w)) = false ->
      jobs_of (run_log c w) = []
      /\ returned (fst (c w)) = false).
Proof.
  intros Hrepo c out flags jobs. subst c out.
  apply String.eqb_neq in Hrepo.
  split; [|split].
  - intros ->. reflexivity.
  - intros Hseeded.
    destruct (main_analysis repo outdir w)
      as [(e & pairs & Hseed & Hr & Hlog) | (w1 & evs & _ & Hlog & Hshape)].
    { rewrite Hseed in Hseeded. discriminate. }
    rewrite Hlog. clear Hlog. rewrite Hrepo in Hshape.
    change (stage1_jobs base_path false (out_path base_path outdir))
      with jobs in Hshape.
    remember (fst (main spawn base_path repo outdir w)) as r.
    destruct Hshape
      as [futs1 pre post bad Hlen1 Hwf1 Heq Hpre Hbad
         |futs1 Hlen1 Hwf1 Hagg1 Hor
         |futs1 futs2 pre post bad Hmerge
         |futs1 futs2 Hmerge]; try discriminate;
      autorewrite with events.
    + split; [reflexivity|]. exists futs1, (map EvPrint (reports pre)).
      repeat split; auto using prints_not_submits.
      intros w'. rewrite Heq, check_futures_stops by assumption. reflexivity.
    + split; [reflexivity|].
      exists futs1, (map EvPrint (reports futs1) ++ [EvShutdown]).
      repeat split; auto.
      * rewrite existsb_app, prints_not_submits. reflexivity.
      * intros w'. rewrite check_futures_returns by assumption. reflexivity.
  - intros Hraised.
    destruct (main_analysis repo outdir w)
      as [(e & pairs & Hseed & Hr & Hlog) | (w1 & evs & Hseed & _)].
    + rewrite Hr, Hlog. split; [apply jobs_of_copies|reflexivity].
    + rewrite Hseed in Hraised. discriminate.
Qed.

(** C9.  In a merge run whose two stage-1 jobs returned, two more jobs
    are submitted; each is the stage-1 job of the same position with one
    override file put just before ["-o"] and the same output path, and
    the result of [main] is the aggregate of the two stage-2 futures. *)
Theorem merge_run_stage2 (outdir : option string) (w : world) :
  let c := main spawn base_path "getsentry" outdir in
  let out := out_path base_path outdir in
  take 2 (futures_of (run_log c w)) = [Ret tt; Ret tt] ->
  jobs_of (run_log c w)
  = [ base_cmd ++ [base_path +:+ "/requirements-base.txt"]
        ++ ["-o"; out +:+ "/requirements-frozen.txt"];
      base_cmd ++ [base_path +:+ "/requirements-base.txt";
                   base_path +:+ "/requirements-dev.txt"]
        ++ ["-o"; out +:+ "/requirements-dev-frozen.txt"];
      base_cmd ++ [base_path +:+ "/requirements-base.txt"]
        ++ [base_path +:+ "/sentry-requirements-frozen.txt"]
        ++ ["-o"; out +:+ "/requirements-frozen.txt"];
      base_cmd ++ [base_path +:+ "/requirements-base.txt";
                   base_path +:+ "/requirements-dev.txt"]
        ++ [base_path +:+ "/sentry-requirements-dev-frozen.txt"]
        ++ ["-o"; out +:+ "/requirements-dev-frozen.txt"] ]
  /\ drop 2 (jobs_of (run_log c w))
     = zip_with with_override (take 2 (jobs_of (run_log c w)))
         (overrides base_path)
  /\ length (drop 2 (futures_of (run_log c w))) = 2%nat
  /\ forall w',
       fst (c w) = fst (check_futures (drop 2 (futures_of (run_log c w))) w').
Proof.
  intros c out Hok. subst c out.
  destruct (main_analysis "getsentry" outdir w)
    as [(e & pairs & Hseed & Hr & Hlog) | (w1 & evs & _ & Hlog & Hshape)];
    rewrite Hlog in *; clear Hlog.
  { autorewrite with events in Hok. discriminate. }
  change (String.eqb "getsentry" "getsentry") with true in Hshape.
  remember (fst (main spawn base_path "getsentry" outdir w)) as r.
  destruct Hshape
    as [futs1 pre post bad Hlen1 Hwf1 Heq Hpre Hbad
       |futs1 Hlen1 Hwf1 Hagg1 Hor
       |futs1 futs2 pre post bad _ Hlen1 Hret1 Hlen2 Hwf2 Heq Hpre Hbad
       |futs1 futs2 _ Hlen1 Hret1 Hlen2 Hwf2 Hagg2];
    autorewrite with events in *.
  - exfalso. rewrite take_ge in Hok by (rewrite Hlen1; reflexivity).
    rewrite Hok in Heq. destruct pre as [|? [|? [|? ?]]]; inversion Heq;
      subst; discriminate.
  - exfalso. rewrite take_ge in Hok by (rewrite Hlen1; reflexivity).
    rewrite Hok in Hor. discriminate.
  - rewrite (drop_app_length' futs1 futs2 2 (eq_sym Hlen1)).
    split; [reflexivity|]. split; [reflexivity|]. split; [exact Hlen2|].
    intros w'. rewrite Heq, check_futures_stops by assumption. reflexivity.
  - rewrite (drop_app_length' futs1 futs2 2 (eq_sym Hlen1)).
    split; [reflexivity|]. split; [reflexivity|]. split; [exact Hlen2|].
    intros w'. rewrite check_futures_returns by assumption. reflexivity.
Qed.

(** ** The seeder *)

Lemma run_shape_no_copy (jobs1 jobs2 : list (list string)) (merge : bool)
  (r : result Z) (evs : list event) :
  run_shape jobs1 jobs2 merge r evs -> copied evs = [].
Proof.
  intros H. destruct H; autorewrite with events; reflexivity.
Qed.

Lemma seeding_raised_run (repo : string) (outdir : option string)
  (w : world) :
  returned (fst (seeding base_path outdir w)) = false ->
  exists e,
    fst (main spawn base_path repo outdir w) = Raise (OSError e)
    /\ jobs_of (run_log (main spawn base_path repo outdir) w) = [].
Proof.
  intros Hraised.
  destruct (main_analysis repo outdir w)
    as [(e & pairs & Hseed & Hr & Hlog) | (w1 & evs & Hseed & _)].
  - assert (exists err, e = OSError err) as [err ->].
    { destruct outdir as [o|]; [|discriminate].
      unfold seeding, bind in Hseed.
      destruct (for_each _ _ w) as [[[]|e0] w1] eqn:Hloop;
        [discriminate|].
      cbn [fst] in Hseed. injection Hseed as ->.
      exact (seeding_loop_raises _ _ _ _ _ Hloop). }
    exists err. split; [exact Hr|].
    rewrite Hlog. apply jobs_of_copies.
  - rewrite Hseed in Hraised. discriminate.
Qed.

(** C6.  The seeder is gated on [outdir] being given.  Without [outdir]
    nothing is copied and the output path is the base path.  With
    [outdir], when seeding goes through, the copies asked for in the run
    are those of requirements-frozen.txt, requirements-dev-frozen.txt and
    requirements-dev-only-frozen.txt, from the base path to [outdir], in
    that order and before anything else the run does, and no file other
    than the three destinations is changed; when seeding raises, its
    exception leaves [main] and no job is submitted; and it does raise,
    an [OSError], when one of the three sources is missing. *)
Theorem seeder_gate (repo : string) (outdir : option string) (w : world) :
  let c := main spawn base_path repo outdir in
  match outdir with
  | None =>
      seeding base_path None w = (Ret base_path, w)
      /\ copied (run_log c w) = []
  | Some o =>
      (returned (fst (seeding base_path (Some o) w)) = true ->
       (exists tail,
           run_log c w
           = [ EvCopy (base_path +:+ "/requirements-frozen.txt")
                      (o +:+ "/requirements-frozen.txt");
               EvCopy (base_path +:+ "/requirements-dev-frozen.txt")
                      (o +:+ "/requirements-dev-frozen.txt");
               EvCopy (base_path +:+ "/requirements-dev-only-frozen.txt")
                      (o +:+ "/requirements-dev-only-frozen.txt") ]
             ++ tail
           /\ copied tail = [])
       /\ (forall path,
             path <> o +:+ "/requirements-frozen.txt" ->
             path <> o +:+ "/requirements-dev-frozen.txt" ->
             path <> o +:+ "/requirements-dev-only-frozen.txt" ->
             fs (snd (seeding base_path (Some o) w)) !! path = fs w !! path))
      /\ (forall e,
            fst (seeding base_path (Some o) w) = Raise e ->
            fst (c w) = Raise e /\ jobs_of (run_log c w) = [])
      /\ (fs w !! (base_path +:+ "/requirements-frozen.txt") = None
          \/ fs w !! (base_path +:+ "/requirements-dev-frozen.txt") = None
          \/ fs w !! (base_path +:+ "/requirements-dev-only-frozen.txt")
             = None ->
          exists e, fst (c w) = Raise (OSError e)
                    /\ jobs_of (run_log c w) = [])
  end.
Proof.
  intros c. subst c. destruct outdir as [o|].
  - split; [|split].
    + intros Hret.
      destruct (main_analysis repo (Some o) w)
        as [(e & pairs & Hseed & _) | (w1 & evs & Hseed & Hlog & Hshape)].
      { rewrite Hseed in Hret. discriminate. }
      split.
      * exists evs. split; [exact Hlog|].
        exact (run_shape_no_copy _ _ _ _ _ Hshape).
      * intros path Hn1 Hn2 Hn3. unfold seeding, bind.
        pose proof (seeding_loop_frame o path lockfiles w) as Hframe.
        destruct (for_each _ _ w) as [[[]|e] w2]; cbn [snd ret] in *;
          apply Hframe; intros [H|[H|[H|[]]]]; symmetry in H;
          [exact (Hn1 H)|exact (Hn2 H)|exact (Hn3 H)
          |exact (Hn1 H)|exact (Hn2 H)|exact (Hn3 H)].
    + intros e He.
      destruct (main_analysis repo (Some o) w)
        as [(e0 & pairs & Hseed & Hr & Hlog) | (w1 & evs & Hseed & _)].
      * rewrite He in Hseed. injection Hseed as <-.
        split; [exact Hr|]. rewrite Hlog. apply jobs_of_copies.
      * rewrite Hseed in He. discriminate.
    + intros Hmissing.
      assert (exists name, In name lockfiles
                /\ fs w !! (base_path +:+ "/" +:+ name) = None)
        as (name & Hin & Hmiss).
      { destruct Hmissing as [H|[H|H]];
          [exists "requirements-frozen.txt"
          |exists "requirements-dev-frozen.txt"
          |exists "requirements-dev-only-frozen.txt"];
          (split; [unfold lockfiles; simpl; tauto | exact H]). }
      apply seeding_raised_run.
      unfold seeding, bind.
      pose proof (seeding_loop_missing o name lockfiles w Hin Hmiss) as Hloop.
      destruct (for_each _ _ w) as [[[]|e] w2]; [|reflexivity].
      apply Hloop. intros name' Hin' Hne.
      exact (seed_paths_apart base_path o name name' Hin Hin' Hne).
  - split; [reflexivity|].
    destruct (main_analysis repo None w)
      as [(e & pairs & Hseed & _) | (w1 & evs & _ & Hlog & Hshape)].
    + discriminate.
    + rewrite Hlog. cbn [copy_events map app].
      exact (run_shape_no_copy _ _ _ _ _ Hshape).
Qed.

(** With the base path itself given as [outdir] the seeder still runs:
    its first copy is refused, and the run ends there. *)
Lemma seeder_onto_itself (repo : string) (w : world) :
  exists e,
    fst (main spawn base_path repo (Some base_path) w) = Raise (OSError e)
    /\ jobs_of (run_log (main spawn base_path repo (Some base_path)) w) = [].
Proof.
  apply seeding_raised_run.
  unfold seeding, lockfiles. cbn [for_each]. unfold bind at 1 2.
  destruct (copyfile_onto_itself
              (base_path +:+ "/" +:+ "requirements-frozen.txt") w)
    as (e & w' & ->).
  reflexivity.
Qed.

End Orchestration.

Lemma worker_stamps_header_witness :
  data <$> (fs (snd (worker (tool_writing 0 (list_byte_of_string "a==1") [])
                       ["pip-compile"; "-o"; "/out/r.txt"]
                       empty_world)) !! "/out/r.txt")
  = Some (list_byte_of_string
            "# DO NOT MODIFY. This file was generated with `make freeze-requirements`."
          ++ [x0a; x0a] ++ list_byte_of_string "a==1").
Proof.
  apply (worker_stamps_header
           (tool_writing 0 (list_byte_of_string "a==1") [])
           ["pip-compile"; "-o"; "/out/r.txt"] "/out/r.txt" empty_world
           [] [] (list_byte_of_string "a==1")
           (<["/out/r.txt" := File (list_byte_of_string "a==1") true true]> ∅)
           (File (list_byte_of_string "a==1") true true)).
  - reflexivity.
  - reflexivity.
  - apply lookup_insert_eq.
  - reflexivity.
  - reflexivity.
Defined.

Lemma check_futures_drains_witness :
  check_futures
    [Ret tt; Raise (CalledProcessError 2 ["pip-compile"; "-o"; "/out/r.txt"]
                      [] (list_byte_of_string "boom")); Ret tt]
    empty_world
  = (Ret 1,
     World ∅
       [EvPrint (report_text 2 ["pip-compile"; "-o"; "/out/r.txt"]
                   [] (list_byte_of_string "boom"))]).
Proof.
  apply (check_futures_drains
           [Ret tt; Raise (CalledProcessError 2
                             ["pip-compile"; "-o"; "/out/r.txt"]
                             [] (list_byte_of_string "boom")); Ret tt]
           empty_world).
  reflexivity.
Defined.

(** C5 as stated fails: a future holding the [OSError] of the stamper
    stops the aggregator, and the report of the failed command behind it
    is never printed. *)
Lemma stamp_failure_stops_aggregation :
  ~ drains_every_stage
      [Raise (OSError (FileNotFoundError "/repo/requirements-frozen.txt"));
       Raise (CalledProcessError 1 ["pip-compile"] []
                (list_byte_of_string "boom"))]
      empty_world.
Proof.
  intros [Hret _]. vm_compute in Hret. discriminate.
Qed.

Lemma stage1_failure_blocks_stage2_witness :
  jobs_of (run_log (main (tool_scripted plan_failing) "/repo" "getsentry"
                      None) empty_world)
  = [ ["pip-compile"; "--no-header"; "--no-annotate"; "--allow-unsafe";
       "-q"; "/repo/requirements-base.txt";
       "-o"; "/repo/requirements-frozen.txt"];
      ["pip-compile"; "--no-header"; "--no-annotate"; "--allow-unsafe";
       "-q"; "/repo/requirements-base.txt"; "/repo/requirements-dev.txt";
       "-o"; "/repo/requirements-dev-frozen.txt"] ].
Proof.
  apply (stage1_failure_blocks_stage2 (tool_scripted plan_failing) "/repo"
           None empty_world).
  vm_compute. reflexivity.
Defined.

(** C2 as stated fails: the compiler fails on the first stage-1 job and
    the output of the second cannot be opened, so the [OSError] leaves
    [main]: no status is returned and the pool is not shut down. *)
Lemma stage1_failure_without_status :
  ~ stage1_failure_returns (tool_scripted plan_mixed) "/repo" None
      empty_world.
Proof.
  intros H. destruct H as (_ & Hr & _).
  - vm_compute. reflexivity.
  - vm_compute in Hr. discriminate.
Qed.

Lemma main_status_witness :
  fst (main (tool_scripted plan_failing) "/repo" "sentry" (Some "/out")
         repo_world)
  = Ret 1.
Proof.
  pose proof (main_status (tool_scripted plan_failing) "/repo" "sentry"
                (Some "/out")
                repo_world) as [Hreturns Hvalue].
  cbv zeta in Hreturns, Hvalue.
  specialize (Hreturns ltac:(vm_compute; reflexivity)
                       ltac:(vm_compute; reflexivity)).
  destruct (fst (main _ _ _ _ _)) as [rc|e] eqn:Hr; [|discriminate].
  destruct (Hvalue rc eq_refl) as [_ Hone].
  f_equal. apply Hone. vm_compute. reflexivity.
Defined.

(** C3 as stated fails: one job fails in the compiler and the output of
    another cannot be opened; a job failed, yet [main] returns no 1. *)
Lemma failed_job_without_status :
  ~ status_reflects_jobs (tool_scripted plan_mixed) "/repo" "sentry" None
      empty_world.
Proof.
  intros [_ H]. specialize (H ltac:(vm_compute; reflexivity)).
  vm_compute in H. discriminate.
Qed.

Lemma stamp_failure_escapes_witness :
  (exists e,
      fst (worker (tool_scripted plan_silent)
             ["pip-compile"; "-o"; "/out/r.txt"] empty_world)
      = Raise (OSError e))
  /\ (exists e',
        fst (main (tool_scripted plan_silent) "/repo" "sentry" None
               empty_world)
        = Raise e'
        /\ exit_status
             (exit_with
                (fst (main (tool_scripted plan_silent) "/repo" "sentry" None
                        empty_world)))
           = 1)
  /\ exit_status
       (exit_with
          (fst (main (tool_scripted plan_failing) "/repo" "sentry" None
                  empty_world)))
     = 1.
Proof.
  split; [|split].
  - destruct (stamp_failure_escapes (tool_scripted plan_silent) "/repo")
      as [Hworker _].
    destruct (Hworker ["pip-compile"; "-o"; "/out/r.txt"] "/out/r.txt"
                empty_world [] [] ∅ eq_refl eq_refl eq_refl)
      as (e & -> & _).
    exists e. reflexivity.
  - destruct (stamp_failure_escapes (tool_scripted plan_silent) "/repo")
      as (_ & Hrun & _).
    destruct (Hrun "sentry" None empty_world
                (base_cmd ++ ["/repo/requirements-base.txt"; "-o";
                              "/repo/requirements-frozen.txt"])
                (FileNotFoundError "/repo/requirements-frozen.txt"))
      as (e' & Hr & _ & Hone & _).
    + vm_compute. left. reflexivity.
    + exists e'. split; [exact Hr | exact Hone].
  - destruct (stamp_failure_escapes (tool_scripted plan_failing) "/repo")
      as (_ & _ & Hsame).
    apply (Hsame "sentry" None empty_world 1).
    + vm_compute. reflexivity.
    + vm_compute. reflexivity.
Defined.

(** C8 as stated fails: with [outdir] given and no lock file at the base
    path, the first copy raises and the run submits no job at all. *)
Lemma plain_run_without_jobs :
  ~ plain_run_three_jobs (tool_scripted plan_ok) "/repo" "sentry"
      (Some "/out") empty_world.
Proof.
  intros H. specialize (H ltac:(discriminate)).
  vm_compute in H. discriminate.
Qed.

Lemma plain_run_single_stage_witness :
  jobs_of (run_log (main (tool_scripted plan_ok) "/repo" "sentry" None)
             empty_world)
  = [ ["pip-compile"; "--no-header"; "--no-annotate"; "--allow-unsafe"; "-q";
       "/repo/requirements-base.txt";
       "-o"; "/repo/requirements-frozen.txt"];
      ["pip-compile"; "--no-header"; "--no-annotate"; "--allow-unsafe"; "-q";
       "/repo/requirements-base.txt"; "/repo/requirements-dev.txt";
       "-o"; "/repo/requirements-dev-frozen.txt"];
      ["pip-compile"; "--no-header"; "--no-annotate"; "--allow-unsafe"; "-q";
       "/repo/requirements-dev.txt";
       "-o"; "/repo/requirements-dev-only-frozen.txt"] ]
  /\ jobs_of (run_log (main (tool_scripted plan_ok) "/repo" "sentry"
                         (Some "/out")) empty_world)
     = [].
Proof.
  split.
  - apply (plain_run_single_stage (tool_scripted plan_ok) "/repo" "sentry"
             None empty_world).
    + discriminate.
    + reflexivity.
  - apply (plain_run_single_stage (tool_scripted plan_ok) "/repo" "sentry"
             (Some "/out") empty_world).
    + discriminate.
    + vm_compute. reflexivity.
Defined.

Lemma merge_run_stage2_witness :
  length (drop 2 (futures_of
            (run_log (main (tool_scripted plan_ok) "/repo" "getsentry" None)
               empty_world))) = 2%nat.
Proof.
  apply (merge_run_stage2 (tool_scripted plan_ok) "/repo" None empty_world).
  vm_compute. reflexivity.
Defined.

Lemma seeder_gate_witness :
  (exists tail,
      run_log (main (tool_scripted plan_ok) "/repo" "sentry" (Some "/out"))
        repo_world
      = [ EvCopy "/repo/requirements-frozen.txt"
                 "/out/requirements-frozen.txt";
          EvCopy "/repo/requirements-dev-frozen.txt"
                 "/out/requirements-dev-frozen.txt";
          EvCopy "/repo/requirements-dev-only-frozen.txt"
                 "/out/requirements-dev-only-frozen.txt" ] ++ tail
      /\ copied tail = [])
  /\ (exists e,
        fst (main (tool_scripted plan_ok) "/repo" "sentry" (Some "/out")
               empty_world) = Raise (OSError e)).
Proof.
  pose proof (seeder_gate (tool_scripted plan_ok) "/repo" "sentry"
                (Some "/out") repo_world) as (Hdone & _ & _).
  pose proof (seeder_gate (tool_scripted plan_ok) "/repo" "sentry"
                (Some "/out") empty_world) as (_ & _ & Hmissing).
  cbv zeta in *. split.
  - apply Hdone. vm_compute. reflexivity.
  - destruct Hmissing as (e & He & _); [|eauto].
    left. vm_compute. reflexivity.
Defined.

(** C6 as stated fails: with the base path itself given as [outdir] the
    two paths are equal, yet the seeder is not skipped; it asks for the
    copy of the first lock file onto itself, which raises. *)
Lemma seeder_not_skipped_on_equal_paths :
  ~ seeder_follows_paths (tool_scripted plan_ok) "/repo" "sentry"
      (Some "/repo") repo_world.
Proof.
  intros (_ & Hskip & _). specialize (Hskip eq_refl).
  vm_compute in Hskip. discriminate.
Qed.

(** ** The script entry point *)

(** C7.  Whatever the parser accepts, the script then calls [main] with
    the repository name alone: the call raises [TypeError] for the
    missing [outdir], the body of [main] never runs (the world is left as
    it was), and the exit status is 1 instead of a status of [main]. *)
Theorem script_misses_outdir
  (spawn : list string -> filesys -> spawned) (base_path : string)
  (parse_args : list string -> result namespace)
  (argv : list string) (args : namespace) (w : world) :
  parse_args argv = Ret args ->
  script spawn base_path parse_args argv w
    = (Raise (TypeError
                "main() missing 1 required positional argument: 'outdir'"),
       w)
  /\ exit_status (fst (script spawn base_path parse_args argv w)) = 1.
Proof.
  intros Hparse. unfold script. rewrite Hparse. split; reflexivity.
Qed.

Lemma script_misses_outdir_witness :
  script (tool_scripted plan_ok) "/repo" parse_one ["sentry"] repo_world
  = (Raise (TypeError
              "main() missing 1 required positional argument: 'outdir'"),
     repo_world).
Proof.
  apply (script_misses_outdir (tool_scripted plan_ok) "/repo" parse_one
           ["sentry"] (Namespace "sentry") repo_world).
  reflexivity.
Defined.

(** * Further properties of the program *)

Section Further.

Variable spawn : list string -> filesys -> spawned.
Variable base_path : string.

(** ** [worker] *)

(** X1.  When the compiler exits with a nonzero code, [worker] raises
    [CalledProcessError] with that code, the command line and the two
    captured streams as they are, and the file system is the one the
    compiler left: nothing is stamped.  When the process cannot be
    started, its [OSError] is raised and nothing has changed. *)
Theorem worker_tool_failure (args : list string) (dest : string)
  (w : world) :
  index_last args = Ret dest ->
  (forall rc out err m',
      spawn args (fs w) = Exited rc out err m' -> rc <> 0 ->
      worker spawn args w
      = (Raise (CalledProcessError rc args out err), World m' (log w)))
  /\ (forall e,
        spawn args (fs w) = NotStarted e ->
        worker spawn args w = (Raise (OSError e), w)).
Proof.
  intros Hdest. split.
  - intros rc out err m' Hrun Hrc. unfold worker. rewrite Hdest.
    unfold bind, try_except, run, bind, get_fs. rewrite Hrun.
    cbn [put_fs]. apply Z.eqb_neq in Hrc. rewrite Hrc. reflexivity.
  - intros e Hrun. unfold worker. rewrite Hdest.
    unfold bind, try_except, run, bind, get_fs. rewrite Hrun. reflexivity.
Qed.

Lemma worker_output_only (args : list string) (w : world)
  (dest path : string) :
  index_last args = Ret dest -> path <> dest ->
  fs (snd (worker spawn args w)) !! path = tool_fs spawn args (fs w) !! path.
Proof.
  intros Hdest Hne. unfold worker, tool_fs. rewrite Hdest.
  unfold bind, try_except, run, bind, get_fs.
  destruct (spawn args (fs w)) as [rc out err m'|e]; [|reflexivity].
  cbn [put_fs]. destruct (rc =? 0)%Z; [|reflexivity].
  unfold ret, open_rb_plus, bind, get_fs. cbn [fs].
  destruct (m' !! dest) as [f|]; [|reflexivity].
  destruct (readable f && writable f); [|reflexivity].
  unfold f_close, bind, get_fs, put_fs, ret. cbn [snd fs f_path f_read
    f_seek f_write].
  apply lookup_insert_ne. congruence.
Qed.

(** X2.  Apart from what the compiler itself did, [worker] changes no
    file but the one named last on the command line, and it never writes
    to the log; with an empty command line it raises [IndexError] before
    anything is run. *)
Theorem worker_touches_only_output (args : list string) (w : world) :
  (forall dest path,
      index_last args = Ret dest -> path <> dest ->
      fs (snd (worker spawn args w)) !! path
      = tool_fs spawn args (fs w) !! path)
  /\ log (snd (worker spawn args w)) = log w
  /\ (args = [] -> worker spawn args w = (Raise IndexError, w)).
Proof.
  split; [|split].
  - intros dest path. apply worker_output_only.
  - apply worker_log_unchanged.
  - intros ->. reflexivity.
Qed.

Lemma worker_frame (args : list string) (w : world) (path : string) :
  framed spawn ->
  index_last args <> Ret path ->
  fs (snd (worker spawn args w)) !! path = fs w !! path.
Proof.
  intros Hframed Hne.
  destruct (index_last args) as [dest|e] eqn:Hdest.
  - rewrite (worker_output_only args w dest path Hdest) by congruence.
    unfold tool_fs.
    destruct (spawn args (fs w)) as [rc out err m'|e] eqn:Hrun;
      [|reflexivity].
    apply (Hframed _ _ _ _ _ _ Hrun). rewrite Hdest. exact Hne.
  - unfold worker. rewrite Hdest. reflexivity.
Qed.

Lemma worker_returned_output (args : list string) (dest : string)
  (w : world) :
  index_last args = Ret dest ->
  returned (fst (worker spawn args w)) = true ->
  exists f,
    tool_fs spawn args (fs w) !! dest = Some f
    /\ data <$> (fs (snd (worker spawn args w)) !! dest)
       = Some (header ++ data f).
Proof.
  intros Hdest. unfold worker, tool_fs. rewrite Hdest.
  generalize header as h. intros h.
  unfold bind, try_except, run, bind, get_fs.
  destruct (spawn args (fs w)) as [rc out err m'|e]; [|discriminate].
  cbn [put_fs]. destruct (rc =? 0)%Z; [|discriminate].
  unfold ret, open_rb_plus, bind, get_fs. cbn [fs].
  destruct (m' !! dest) as [f|] eqn:Hfile; [|discriminate].
  destruct (readable f && writable f); [|discriminate].
  intros _. exists f. split; [reflexivity|].
  simpl. rewrite lookup_insert_eq. simpl.
  rewrite drop_0, drop_ge by (rewrite length_app; lia).
  rewrite app_nil_r. reflexivity.
Qed.

(** ** [check_futures] *)

Lemma returned_no_reports (futures : list future) :
  forallb returned futures = true -> reports futures = [].
Proof.
  induction futures as [|[[]|e] rest IH]; simpl; auto; discriminate.
Qed.

Lemma reports_app (xs ys : list future) :
  reports (xs ++ ys) = reports xs ++ reports ys.
Proof.
  induction xs as [|[[]|e] xs IH]; simpl; auto.
  destruct e; simpl; auto. f_equal. exact IH.
Qed.

(** X3.  [check_futures] returns exactly when every future returned or
    holds a [CalledProcessError] whose two streams decode.  Otherwise it
    stops at the first future that is not so, after the reports of the
    failures before it: an exception that is not a [CalledProcessError]
    is re-raised as it is, and a stream that does not decode raises
    [UnicodeDecodeError] without the report of that command. *)
Theorem check_futures_outcome (futures : list future) (w : world) :
  returned (fst (check_futures futures w)) = forallb aggregable futures
  /\ (forall pre post e,
        futures = pre ++ Raise e :: post ->
        forallb aggregable pre = true ->
        is_CalledProcessError e = false ->
        fst (check_futures futures w) = Raise e
        /\ printed (run_log (check_futures futures) w) = reports pre)
  /\ (forall pre post rc cmd out err,
        futures = pre ++ Raise (CalledProcessError rc cmd out err) :: post ->
        forallb aggregable pre = true ->
        decodable out && decodable err = false ->
        fst (check_futures futures w) = Raise UnicodeDecodeError
        /\ printed (run_log (check_futures futures) w) = reports pre).
Proof.
  split; [|split].
  - destruct (forallb aggregable futures) eqn:Hagg.
    + rewrite check_futures_returns by exact Hagg. reflexivity.
    + destruct (first_not_aggregable _ Hagg)
        as (pre & bad & post & -> & Hpre & Hbad).
      rewrite check_futures_stops by assumption. reflexivity.
  - intros pre post e -> Hpre He.
    assert (Hbad : aggregable (Raise e) = false)
      by (destruct e; simpl in *; auto; discriminate).
    pose proof (check_futures_stops pre post (Raise e) w Hpre Hbad) as Heq.
    split.
    + rewrite Heq. destruct e; simpl in *; auto; discriminate.
    + rewrite (run_log_app _ w (map EvPrint (reports pre)))
        by (rewrite Heq; reflexivity).
      apply printed_prints.
  - intros pre post rc cmd out err -> Hpre Hdec.
    pose proof (check_futures_stops pre post
                  (Raise (CalledProcessError rc cmd out err)) w Hpre Hdec)
      as Heq.
    split.
    + rewrite Heq. reflexivity.
    + rewrite (run_log_app _ w (map EvPrint (reports pre)))
        by (rewrite Heq; reflexivity).
      apply printed_prints.
Qed.

(** X4.  [check_futures] never touches a file; all it adds to the log
    are reports, an initial part of the reports of the failed commands
    in submission order; a status it returns is 0 or 1, never the exit
    code of a command; and for no future at all it returns 0. *)
Theorem check_futures_effects (futures : list future) (w : world) :
  fs (snd (check_futures futures w)) = fs w
  /\ (exists texts,
        log (snd (check_futures futures w)) = log w ++ map EvPrint texts
        /\ texts `prefix_of` reports futures)
  /\ (forall rc, fst (check_futures futures w) = Ret rc -> rc = 0 \/ rc = 1)
  /\ check_futures [] w = (Ret 0, w).
Proof.
  assert (Hnil : check_futures [] w = (Ret 0, w)) by reflexivity.
  destruct (forallb aggregable futures) eqn:Hagg.
  - rewrite check_futures_returns by exact Hagg. cbn [fst snd fs log].
    split; [reflexivity|]. split; [|split; [|exact Hnil]].
    + exists (reports futures). split; [reflexivity|]. reflexivity.
    + intros rc [= <-]. unfold status_of.
      destruct (existsb failed futures); auto.
  - destruct (first_not_aggregable _ Hagg)
      as (pre & bad & post & -> & Hpre & Hbad).
    rewrite check_futures_stops by assumption. cbn [fst snd fs log].
    split; [reflexivity|]. split; [|split; [|exact Hnil]].
    + exists (reports pre). split; [reflexivity|].
      rewrite reports_app. apply prefix_app_r. reflexivity.
    + intros rc [=].
Qed.

(** ** Runs of [main] *)

Lemma count_shutdowns_app (xs ys : list event) :
  count_shutdowns (xs ++ ys) = (count_shutdowns xs + count_shutdowns ys)%nat.
Proof. unfold count_shutdowns. rewrite List.filter_app. apply length_app. Qed.

Lemma count_shutdowns_copies (pairs : list (string * string)) :
  count_shutdowns (copy_events pairs) = 0%nat.
Proof. induction pairs; simpl; auto. Qed.

Lemma count_shutdowns_prints (texts : list string) :
  count_shutdowns (map EvPrint texts) = 0%nat.
Proof. induction texts; simpl; auto. Qed.

Lemma count_shutdowns_submits (jobs : list (list string))
  (futs : list future) :
  count_shutdowns (zip_with EvSubmit jobs futs) = 0%nat.
Proof.
  revert futs. induction jobs as [|j jobs IH]; intros [|f futs]; simpl; auto.
  apply IH.
Qed.

(** X5.  The pool is shut down exactly in the runs in which [main]
    returns: then [executor.shutdown()] is called once and is the last
    thing the run does; when an exception leaves [main], whether from
    seeding or from a future, the pool is never shut down. *)
Theorem shutdown_iff_returned (repo : string) (outdir : option string)
  (w : world) :
  let c := main spawn base_path repo outdir in
  (returned (fst (c w)) = true ->
   last (run_log c w) = Some EvShutdown
   /\ count_shutdowns (run_log c w) = 1%nat)
  /\ (returned (fst (c w)) = false -> count_shutdowns (run_log c w) = 0%nat).
Proof.
  intros c. subst c.
  destruct (main_analysis spawn base_path repo outdir w)
    as [(e & pairs & Hseed & Hr & Hlog) | (w1 & evs & _ & Hlog & Hshape)];
    rewrite Hlog; clear Hlog.
  - rewrite Hr. split; [discriminate|]. intros _.
    apply count_shutdowns_copies.
  - remember (fst (main spawn base_path repo outdir w)) as r.
    destruct Hshape; cbn [returned];
      rewrite ?count_shutdowns_app, ?count_shutdowns_copies,
        ?count_shutdowns_submits, ?count_shutdowns_prints;
      (split; [|try discriminate; try reflexivity]);
      try discriminate; intros _;
      (split; [rewrite !app_assoc; apply last_snoc | reflexivity]).
Qed.

(** X6.  Jobs are submitted a whole stage at a time, whatever their
    outcomes: the jobs of a run are none (seeding raised), or the
    stage-1 jobs, or, in the merge mode only and only when both stage-1
    jobs returned, the stage-1 jobs followed by the stage-2 jobs.  No
    run submits more than four jobs. *)
Theorem submissions_by_stage (repo : string) (outdir : option string)
  (w : world) :
  let c := main spawn base_path repo outdir in
  let merge := String.eqb repo "getsentry" in
  let out := out_path base_path outdir in
  ((returned (fst (seeding base_path outdir w)) = false
    /\ jobs_of (run_log c w) = [])
   \/ (returned (fst (seeding base_path outdir w)) = true
       /\ jobs_of (run_log c w) = stage1_jobs base_path merge out)
   \/ (merge = true
       /\ jobs_of (run_log c w)
          = stage1_jobs base_path true out ++ stage2_jobs base_path out
       /\ take 2 (futures_of (run_log c w)) = [Ret tt; Ret tt]))
  /\ (length (jobs_of (run_log c w)) <= 4)%nat.
Proof.
  intros c merge out. subst c merge out.
  destruct (main_analysis spawn base_path repo outdir w)
    as [(e & pairs & Hseed & Hr & Hlog) | (w1 & evs & Hseed & Hlog & Hshape)];
    rewrite Hlog; clear Hlog.
  - autorewrite with events. split; [|simpl; lia].
    left. rewrite Hseed. auto.
  - remember (fst (main spawn base_path repo outdir w)) as r.
    destruct Hshape
      as [futs1 pre post bad Hlen1 Hwf1 Heq Hpre Hbad
         |futs1 Hlen1 Hwf1 Hagg1 Hor
         |futs1 futs2 pre post bad Hmerge Hlen1 Hret1 Hlen2 Hwf2 Heq Hpre Hbad
         |futs1 futs2 Hmerge Hlen1 Hret1 Hlen2 Hwf2 Hagg2];
      autorewrite with events.
    + split; [right; left; rewrite Hseed; auto|].
      destruct (String.eqb repo "getsentry"); simpl; lia.
    + split; [right; left; rewrite Hseed; auto|].
      destruct (String.eqb repo "getsentry"); simpl; lia.
    + rewrite Hmerge in *. split; [|simpl; lia].
      right; right. split; [reflexivity|]. split; [reflexivity|].
      rewrite (take_app_length' futs1 futs2 2 (eq_sym Hlen1)).
      destruct futs1 as [|[[]|?] [|[[]|?] [|? ?]]]; simpl in *;
        try discriminate; reflexivity.
    + rewrite Hmerge in *. split; [|simpl; lia].
      right; right. split; [reflexivity|]. split; [reflexivity|].
      rewrite (take_app_length' futs1 futs2 2 (eq_sym Hlen1)).
      destruct futs1 as [|[[]|?] [|[[]|?] [|? ?]]]; simpl in *;
        try discriminate; reflexivity.
Qed.

(** X7.  All that a run prints are reports of commands that failed in
    it, in submission order and without gaps from the first one; a run
    in which [main] returns has printed the report of every failed
    command, and a run that returns 0 has printed nothing. *)
Theorem run_prints_reports (repo : string) (outdir : option string)
  (w : world) :
  let c := main spawn base_path repo outdir in
  printed (run_log c w) `prefix_of` reports (futures_of (run_log c w))
  /\ (returned (fst (c w)) = true ->
      printed (run_log c w) = reports (futures_of (run_log c w)))
  /\ (fst (c w) = Ret 0 -> printed (run_log c w) = []).
Proof.
  intros c. subst c.
  destruct (main_analysis spawn base_path repo outdir w)
    as [(e & pairs & Hseed & Hr & Hlog) | (w1 & evs & _ & Hlog & Hshape)];
    rewrite Hlog; clear Hlog.
  - autorewrite with events. rewrite Hr. simpl.
    split; [reflexivity|]. split; [reflexivity|discriminate].
  - remember (fst (main spawn base_path repo outdir w)) as r.
    destruct Hshape
      as [futs1 pre post bad Hlen1 Hwf1 Heq Hpre Hbad
         |futs1 Hlen1 Hwf1 Hagg1 Hor
         |futs1 futs2 pre post bad Hmerge Hlen1 Hret1 Hlen2 Hwf2 Heq Hpre Hbad
         |futs1 futs2 Hmerge Hlen1 Hret1 Hlen2 Hwf2 Hagg2];
      autorewrite with events.
    + split; [|split; discriminate].
      rewrite Heq, reports_app. apply prefix_app_r. reflexivity.
    + split; [reflexivity|]. split; [reflexivity|].
      intros [= Hzero]. apply status_of_zero in Hzero.
      rewrite existsb_failed_returned in Hor.
      clear -Hzero. induction futs1 as [|[[]|?] ? IH]; simpl in *;
        auto; discriminate.
    + split; [|split; discriminate].
      rewrite reports_app, Heq, reports_app.
      rewrite (returned_no_reports futs1 Hret1). cbn [app].
      apply prefix_app_r. reflexivity.
    + rewrite reports_app, (returned_no_reports futs1 Hret1). cbn [app].
      split; [reflexivity|]. split; [reflexivity|].
      intros [= Hzero]. apply status_of_zero in Hzero.
      clear -Hzero. induction futs2 as [|[[]|?] ? IH]; simpl in *;
        auto; discriminate.
Qed.

(** ** What a successful run leaves *)

Lemma all_returned_aggregable (futures : list future) :
  forallb returned futures = true ->
  forallb aggregable futures = true /\ existsb failed futures = false.
Proof.
  induction futures as [|[[]|e] rest IH]; simpl; auto; discriminate.
Qed.

Lemma status_zero_returned (futures : list future) :
  forallb aggregable futures = true ->
  status_of futures = 0 -> forallb returned futures = true.
Proof. intros _ H. apply status_of_zero. exact H. Qed.

Lemma staged_returns_zero (merge : bool) (outdir : option string)
  (w : world) (out : string) (w1 : world) :
  seeding base_path outdir w = (Ret out, w1) ->
  fst (staged spawn base_path merge outdir w) = Ret 0 ->
  exists futs1 w2,
    submit_all spawn (stage1_jobs base_path merge out) w1 = (Ret futs1, w2)
    /\ forallb returned futs1 = true
    /\ if merge
       then exists futs2 w2' w3,
           fs w2' = fs w2
           /\ submit_all spawn (stage2_jobs base_path out) w2'
              = (Ret futs2, w3)
           /\ forallb returned futs2 = true
           /\ fs (snd (staged spawn base_path merge outdir w)) = fs w3
       else fs (snd (staged spawn base_path merge outdir w)) = fs w2.
Proof.
  intros Hseed.
  destruct (staged spawn base_path merge outdir w) as [r wf] eqn:Hst.
  cbn [fst snd]. intros ->.
  unfold staged in Hst. unfold bind at 1 in Hst. rewrite Hseed in Hst.
  destruct (submit_all_spec spawn (stage1_jobs base_path merge out) w1)
    as (futs1 & w2 & Hsub1 & Hlen1 & Hwf1 & Hlog1).
  unfold bind at 1 in Hst. rewrite Hsub1 in Hst.
  exists futs1, w2. split; [exact Hsub1|].
  destruct (forallb aggregable futs1) eqn:Hagg1.
  - unfold bind at 1 in Hst.
    rewrite (check_futures_returns futs1 w2 Hagg1) in Hst.
    unfold status_of in Hst.
    destruct (existsb failed futs1) eqn:Hfail1.
    + cbn [negb Z.eqb] in Hst.
      unfold bind, executor_shutdown, emit, ret in Hst. discriminate.
    + destruct (none_failed _ Hfail1) as [Hret1 Hrep1].
      split; [exact Hret1|].
      cbn [negb Z.eqb] in Hst. destruct merge.
      * set (w2' := World _ _) in Hst.
        destruct (submit_all_spec spawn (stage2_jobs base_path out) w2')
          as (futs2 & w3 & Hsub2 & Hlen2 & Hwf2 & Hlog2).
        unfold bind at 1 in Hst. rewrite Hsub2 in Hst.
        exists futs2, w2', w3. split; [reflexivity|].
        split; [exact Hsub2|].
        destruct (forallb aggregable futs2) eqn:Hagg2.
        -- unfold bind at 1 in Hst.
           rewrite (check_futures_returns futs2 w3 Hagg2) in Hst.
           unfold bind, executor_shutdown, emit, ret in Hst.
           cbn [fs log] in Hst. injection Hst as Hzero <-.
           split; [|reflexivity].
           apply status_of_zero. exact Hzero.
        -- destruct (first_not_aggregable _ Hagg2)
             as (pre & bad & post & Heq & Hpre & Hbad).
           unfold bind at 1 in Hst. rewrite Heq in Hst.
           rewrite (check_futures_stops pre post bad w3 Hpre Hbad) in Hst.
           discriminate.
      * unfold bind, executor_shutdown, emit, ret in Hst.
        cbn [fs log] in Hst. injection Hst as <-. reflexivity.
  - destruct (first_not_aggregable _ Hagg1)
      as (pre & bad & post & Heq & Hpre & Hbad).
    unfold bind at 1 in Hst. rewrite Heq in Hst.
    rewrite (check_futures_stops pre post bad w2 Hpre Hbad) in Hst.
    discriminate.
Qed.

Lemma submit_all_frame (jobs : list (list string)) (w w' : world)
  (futs : list future) (path : string) :
  framed spawn ->
  (forall job, In job jobs -> index_last job <> Ret path) ->
  submit_all spawn jobs w = (Ret futs, w') ->
  fs w' !! path = fs w !! path.
Proof.
  intros Hframed. revert w futs.
  induction jobs as [|job rest IH]; intros w futs Hnot.
  - intros [= _ <-]. reflexivity.
  - cbn [submit_all]. unfold bind at 1.
    rewrite (executor_submit_worker spawn). set (wa := World _ _).
    unfold bind at 1.
    destruct (submit_all spawn rest wa) as [[futs'|e] wb] eqn:Hrest;
      [|discriminate].
    intros [= _ <-].
    rewrite (IH wa futs') by (auto using in_cons).
    subst wa. cbn [fs].
    apply (worker_frame job w path Hframed). apply Hnot. left. reflexivity.
Qed.

Lemma submit_all_outputs (jobs : list (list string)) (w w' : world)
  (futs : list future) :
  framed spawn ->
  submit_all spawn jobs w = (Ret futs, w') ->
  forallb returned futs = true ->
  forall job dest,
    In job jobs -> index_last job = Ret dest ->
    exists job' m f,
      In job' jobs
      /\ index_last job' = Ret dest
      /\ tool_fs spawn job' m !! dest = Some f
      /\ data <$> (fs w' !! dest) = Some (header ++ data f).
Proof.
  intros Hframed. revert w futs.
  induction jobs as [|head rest IH]; intros w futs Hsub Hret job dest Hin
    Hdest; [destruct Hin|].
  cbn [submit_all] in Hsub. unfold bind at 1 in Hsub.
  rewrite (executor_submit_worker spawn) in Hsub.
  set (wa := World _ _) in Hsub. unfold bind at 1 in Hsub.
  destruct (submit_all spawn rest wa) as [[futs'|e] wb] eqn:Hrest;
    [|discriminate].
  injection Hsub as <- <-. cbn [forallb] in Hret.
  apply andb_prop in Hret as [Hhead Hret'].
  assert (Hrec : forall j, In j rest -> index_last j = Ret dest ->
            exists job' m f,
              In job' (head :: rest)
              /\ index_last job' = Ret dest
              /\ tool_fs spawn job' m !! dest = Some f
              /\ data <$> (fs wb !! dest) = Some (header ++ data f)).
  { intros j Hj Hd.
    destruct (IH wa futs' Hrest Hret' j dest Hj Hd)
      as (job' & m & f & Hin' & Hd' & Hf & Hdata).
    exists job', m, f. auto using in_cons. }
  destruct (existsb (fun j => match index_last j with
                              | Ret d => String.eqb d dest
                              | Raise _ => false
                              end) rest) eqn:Hlater.
  - apply existsb_exists in Hlater as (j & Hj & Hsame).
    apply (Hrec j Hj).
    destruct (index_last j) as [d|]; [|discriminate].
    apply String.eqb_eq in Hsame. subst d. reflexivity.
  - destruct Hin as [->|Hin]; [|exact (Hrec job Hin Hdest)].
    destruct (worker_returned_output job dest w Hdest Hhead)
      as (f & Hf & Hdata).
    exists job, (fs w), f.
    split; [left; reflexivity|]. split; [exact Hdest|].
    split; [exact Hf|].
    rewrite (submit_all_frame rest wa wb futs' dest Hframed); [| |exact Hrest].
    + subst wa. cbn [fs]. exact Hdata.
    + intros job' Hin' Hsame.
      rewrite <- not_true_iff_false in Hlater. apply Hlater.
      apply existsb_exists. exists job'. split; [exact Hin'|].
      rewrite Hsame. apply String.eqb_refl.
Qed.

(** X8.  With a compiler that changes no file but its output, a run in
    which [main] returns 0 leaves every lock file named as output by a
    submitted job holding the line ["# DO NOT MODIFY. This file was
    generated with `make freeze-requirements`."], an empty line, and then
    the bytes a compiler run of the last stage left in it: one of the
    two commands with a sentry-requirements override in the merge mode,
    one of the three commands of the only stage otherwise. *)
Theorem successful_run_stamps_outputs (repo : string)
  (outdir : option string) (w : world) :
  framed spawn ->
  let c := main spawn base_path repo outdir in
  let out := out_path base_path outdir in
  let flags :=
    ["pip-compile"; "--no-header"; "--no-annotate"; "--allow-unsafe"; "-q"] in
  let last_stage :=
    if String.eqb repo "getsentry"
    then [ flags ++ [base_path +:+ "/requirements-base.txt";
                     base_path +:+ "/sentry-requirements-frozen.txt";
                     "-o"; out +:+ "/requirements-frozen.txt"];
           flags ++ [base_path +:+ "/requirements-base.txt";
                     base_path +:+ "/requirements-dev.txt";
                     base_path +:+ "/sentry-requirements-dev-frozen.txt";
                     "-o"; out +:+ "/requirements-dev-frozen.txt"] ]
    else [ flags ++ [base_path +:+ "/requirements-base.txt";
                     "-o"; out +:+ "/requirements-frozen.txt"];
           flags ++ [base_path +:+ "/requirements-base.txt";
                     base_path +:+ "/requirements-dev.txt";
                     "-o"; out +:+ "/requirements-dev-frozen.txt"];
           flags ++ [base_path +:+ "/requirements-dev.txt";
                     "-o"; out +:+ "/requirements-dev-only-frozen.txt"] ] in
  fst (c w) = Ret 0 ->
  forall job dest,
    In job (jobs_of (run_log c w)) ->
    index_last job = Ret dest ->
    exists job' m f,
      In job' last_stage
      /\ index_last job' = Ret dest
      /\ tool_fs spawn job' m !! dest = Some f
      /\ data <$> (fs (snd (c w)) !! dest)
         = Some (list_byte_of_string
                   "# DO NOT MODIFY. This file was generated with `make freeze-requirements`."
                 ++ [x0a; x0a] ++ data f).
Proof.
  intros Hframed c out flags last_stage Hzero job dest Hin Hdest.
  assert (Hheader : forall content : bytes,
            list_byte_of_string
              "# DO NOT MODIFY. This file was generated with `make freeze-requirements`."
            ++ [x0a; x0a] ++ content
            = header ++ content).
  { intros content. unfold header. rewrite <- app_assoc. reflexivity. }
  setoid_rewrite Hheader. clear Hheader.
  subst c out last_stage flags.
  destruct (main_analysis spawn base_path repo outdir w)
    as [(e & pairs & Hseed & Hr & Hlog) | (w1 & evs & Hseed & Hlog & Hshape)].
  { rewrite Hr in Hzero. discriminate. }
  rewrite Hlog in Hin. clear Hlog.
  rewrite (main_staged spawn base_path) in Hzero, Hshape |- *.
  destruct (staged_returns_zero _ outdir w _ w1 Hseed Hzero)
    as (futs1 & w2 & Hsub1 & Hret1 & Hlast).
  remember (fst (staged spawn base_path (String.eqb repo "getsentry")
                   outdir w)) as r.
  destruct Hshape
    as [f1 pre post bad Hlen1 Hwf1 Heq Hpre Hbad
       |f1 Hlen1 Hwf1 Hagg1 Hor
       |f1 f2 pre post bad Hmerge Hlen1 Hr1 Hlen2 Hwf2 Heq Hpre Hbad
       |f1 f2 Hmerge Hlen1 Hr1 Hlen2 Hwf2 Hagg2];
    try discriminate; autorewrite with events in Hin.
  - injection Hzero as Hst. apply status_of_zero in Hst.
    rewrite existsb_failed_returned, Hst in Hor. cbn [negb orb] in Hor.
    apply negb_true_iff in Hor. rewrite Hor in *.
    rewrite Hlast.
    exact (submit_all_outputs _ w1 w2 futs1 Hframed Hsub1 Hret1 job dest
             Hin Hdest).
  - rewrite Hmerge in *.
    destruct Hlast as (futs2 & w2' & w3 & Hfs & Hsub2 & Hret2 & ->).
    assert (exists job', In job' (stage2_jobs base_path
                                    (out_path base_path outdir))
                         /\ index_last job' = Ret dest) as (job' & Hin' & Hd').
    { apply in_app_or in Hin as [Hin|Hin]; [|eauto].
      cbn in Hin. destruct Hin as [<-|[<-|[]]];
        [eexists; split; [left; reflexivity|exact Hdest]
        |eexists; split; [right; left; reflexivity|exact Hdest]]. }
    exact (submit_all_outputs _ w2' w3 futs2 Hframed Hsub2 Hret2 job' dest
             Hin' Hd').
Qed.

(** ** What seeding leaves *)

Lemma append_same_head (a s t : string) : a +:+ s = a +:+ t -> s = t.
Proof.
  induction a as [|c a IH]; simpl; [auto|]. intros [= E]. auto.
Qed.

Lemma copyfile_returned_apart (src dst : string) (w w' : world) :
  copyfile src dst w = (Ret tt, w') -> src <> dst.
Proof.
  unfold copyfile, bind, emit, get_fs, put_fs, raise. cbn [fs log].
  destruct (fs w !! src) as [f|]; [|discriminate].
  destruct (String.eqb src dst) eqn:E; [discriminate|].
  intros _. apply String.eqb_neq. exact E.
Qed.

Lemma seeding_loop_copies (o : string) (names : list string)
  (w w' : world) :
  NoDup names ->
  (forall l l', In l names -> In l' names -> l' <> l ->
     o +:+ "/" +:+ l' <> base_path +:+ "/" +:+ l) ->
  for_each names (fun lockfile =>
    copyfile (base_path +:+ "/" +:+ lockfile) (o +:+ "/" +:+ lockfile)) w
  = (Ret tt, w') ->
  forall l, In l names ->
    exists f g,
      fs w !! (base_path +:+ "/" +:+ l) = Some f
      /\ fs w' !! (o +:+ "/" +:+ l) = Some g
      /\ data g = data f
      /\ fs w' !! (base_path +:+ "/" +:+ l) = Some f.
Proof.
  revert w. induction names as [|h rest IH]; intros w Hnodup Hapart Hloop l
    Hin; [destruct Hin|].
  apply NoDup_cons in Hnodup as [Hfresh Hnodup].
  rewrite list_elem_of_In in Hfresh.
  cbn [for_each] in Hloop. unfold bind in Hloop.
  destruct (copyfile (base_path +:+ "/" +:+ h) (o +:+ "/" +:+ h) w)
    as [[[]|e] wa] eqn:Hcopy; [|discriminate].
  destruct (copyfile_returns _ _ _ _ Hcopy) as (f & r & Hsrc & Hfs & _).
  pose proof (copyfile_returned_apart _ _ _ _ Hcopy) as Hself.
  assert (Hw' : w' = snd (for_each rest (fun lockfile =>
                  copyfile (base_path +:+ "/" +:+ lockfile)
                           (o +:+ "/" +:+ lockfile)) wa))
    by (rewrite Hloop; reflexivity).
  destruct Hin as [<-|Hin].
  - exists f, (File (data f) r true).
    split; [exact Hsrc|]. rewrite Hw'.
    rewrite !(seeding_loop_frame base_path).
    + rewrite Hfs, lookup_insert_eq, lookup_insert_ne by congruence.
      auto.
    + intros H. apply in_map_iff in H as (l' & E & Hin').
      apply (Hapart h l'); simpl; auto. intros ->. contradiction.
    + intros H. apply in_map_iff in H as (l' & E & Hin').
      apply append_same_head, append_same_head in E. subst l'.
      contradiction.
  - destruct (IH wa Hnodup) with (l := l) as (f' & g' & Hs & Hd & Hdata & Hs');
      auto.
    { intros a b Ha Hb. apply Hapart; simpl; auto. }
    exists f', g'. split; [|auto].
    rewrite Hfs, lookup_insert_ne in Hs; [exact Hs|].
    apply Hapart; simpl; auto. intros ->. contradiction.
Qed.

(** X9.  When the seeder goes through, each of the three destinations
    in [outdir] holds the bytes its source held at the start, and the
    three sources under the base path are as they were. *)
Theorem seeding_copies_contents (o out : string) (w w1 : world) :
  seeding base_path (Some o) w = (Ret out, w1) ->
  out = o
  /\ forall lockfile, In lockfile lockfiles ->
       exists f g,
         fs w !! (base_path +:+ "/" +:+ lockfile) = Some f
         /\ fs w1 !! (o +:+ "/" +:+ lockfile) = Some g
         /\ data g = data f
         /\ fs w1 !! (base_path +:+ "/" +:+ lockfile) = Some f.
Proof.
  unfold seeding, bind.
  destruct (for_each lockfiles _ w) as [[[]|e] wa] eqn:Hloop;
    [|discriminate].
  intros [= <- <-]. split; [reflexivity|].
  apply (seeding_loop_copies o lockfiles w wa).
  - unfold lockfiles. repeat constructor;
      rewrite ?list_elem_of_In; simpl; intuition discriminate.
  - intros l l' Hl Hl' Hne. exact (seed_paths_apart base_path o l l' Hl Hl' Hne).
  - exact Hloop.
Qed.

(** X10.  The seeder does not look at the repository: in the merge mode
    with [outdir] it still copies [requirements-dev-only-frozen.txt],
    although no job of a merge run has that file as its output. *)
Theorem merge_run_seeds_unused_lockfile (o : string) (w : world) :
  returned (fst (seeding base_path (Some o) w)) = true ->
  let c := main spawn base_path "getsentry" (Some o) in
  In (base_path +:+ "/requirements-dev-only-frozen.txt",
      o +:+ "/requirements-dev-only-frozen.txt") (copied (run_log c w))
  /\ forall job,
       In job (jobs_of (run_log c w)) ->
       index_last job <> Ret (o +:+ "/requirements-dev-only-frozen.txt").
Proof.
  intros Hret c. subst c.
  destruct (main_analysis spawn base_path "getsentry" (Some o) w)
    as [(e & pairs & Hseed & Hr & Hlog) | (w1 & evs & _ & Hlog & Hshape)].
  { rewrite Hseed in Hret. discriminate. }
  rewrite Hlog. clear Hlog.
  change (String.eqb "getsentry" "getsentry") with true in Hshape.
  cbn [out_path] in Hshape.
  assert (Hjobs : forall job,
             In job (stage1_jobs base_path true o
                       ++ stage2_jobs base_path o) ->
             index_last job
             <> Ret (o +:+ "/requirements-dev-only-frozen.txt")).
  { intros job Hin. cbn in Hin.
    destruct Hin as [<-|[<-|[<-|[<-|[]]]]]; cbn; intros [= E];
      apply append_same_head in E; discriminate. }
  split.
  - rewrite copied_app, copied_copies. apply in_or_app. left.
    unfold seed_pairs, lockfiles. simpl. auto.
  - intros job Hin. apply Hjobs.
    remember (fst (main spawn base_path "getsentry" (Some o) w)) as r.
    destruct Hshape; autorewrite with events in Hin;
      apply in_or_app; auto.
    + apply in_app_or in Hin. destruct Hin; auto.
    + apply in_app_or in Hin. destruct Hin; auto.
Qed.

(** ** What a run never touches *)

Lemma keeps_ret {A} (path : string) (a : A) : keeps path (ret a).
Proof. intros w. reflexivity. Qed.

Lemma keeps_emit (path : string) (ev : event) : keeps path (emit ev).
Proof. intros w. reflexivity. Qed.

Lemma keeps_bind {A B} (path : string) (c : M A) (k : A -> M B) :
  keeps path c -> (forall a, keeps path (k a)) -> keeps path (bind c k).
Proof.
  intros Hc Hk w. unfold bind. specialize (Hc w).
  destruct (c w) as [[a|e] w1]; cbn [snd] in *; [|exact Hc].
  rewrite (Hk a w1). exact Hc.
Qed.

Lemma keeps_check_futures (path : string) (futures : list future) :
  keeps path (check_futures futures).
Proof.
  intros w. destruct (forallb aggregable futures) eqn:Hagg.
  - rewrite check_futures_returns by exact Hagg. reflexivity.
  - destruct (first_not_aggregable _ Hagg)
      as (pre & bad & post & -> & Hpre & Hbad).
    rewrite check_futures_stops by assumption. reflexivity.
Qed.

Lemma keeps_submit_all (path : string) (jobs : list (list string)) :
  framed spawn ->
  (forall job, In job jobs -> index_last job <> Ret path) ->
  keeps path (submit_all spawn jobs).
Proof.
  intros Hframed Hnot w.
  destruct (submit_all_spec spawn jobs w) as (futs & w' & Hsub & _).
  rewrite Hsub. cbn [snd].
  exact (submit_all_frame jobs w w' futs path Hframed Hnot Hsub).
Qed.

Lemma outputs_among_seeds (merge : bool) (out path : string) :
  ~ In path (map (fun lockfile => out +:+ "/" +:+ lockfile) lockfiles) ->
  forall job,
    In job (stage1_jobs base_path merge out ++ stage2_jobs base_path out) ->
    index_last job <> Ret path.
Proof.
  intros Hnot job Hin Hlast. apply Hnot. clear Hnot.
  destruct merge; cbn in Hin;
    repeat (destruct Hin as [<-|Hin];
            [cbn in Hlast; injection Hlast as <-; simpl; auto|]);
    destruct Hin.
Qed.

(** X11.  With a compiler that changes no file but its output, no run
    of [main], however it ends, changes a file other than the three
    lock files under the output path; in particular the requirement
    files and the override files it feeds to the compiler are never
    changed, whatever the output path is. *)
Theorem run_touches_only_lockfiles (repo : string) (outdir : option string)
  (w : world) :
  framed spawn ->
  let c := main spawn base_path repo outdir in
  let out := out_path base_path outdir in
  (forall path,
      ~ In path (map (fun lockfile => out +:+ "/" +:+ lockfile) lockfiles) ->
      fs (snd (c w)) !! path = fs w !! path)
  /\ (forall path,
        In path (input_files base_path) ->
        fs (snd (c w)) !! path = fs w !! path).
Proof.
  intros Hframed c out. subst c out.
  assert (Hmain : forall path,
    ~ In path (map (fun lockfile =>
                      out_path base_path outdir +:+ "/" +:+ lockfile)
                 lockfiles) ->
    fs (snd (main spawn base_path repo outdir w)) !! path = fs w !! path).
  { intros path Hnot.
    rewrite (main_staged spawn base_path). unfold staged. unfold bind at 1.
    assert (Hseed : fs (snd (seeding base_path outdir w)) !! path
                    = fs w !! path).
    { destruct outdir as [o|]; [|reflexivity].
      unfold seeding, bind.
      pose proof (seeding_loop_frame base_path o path lockfiles w Hnot)
        as Hframe.
      destruct (for_each _ _ w) as [[[]|e] w2]; exact Hframe. }
    destruct (seeding_events base_path outdir w) as (pairs & _ & Hout).
    destruct (seeding base_path outdir w) as [[o1|e] w1];
      cbn [snd] in Hseed; [|exact Hseed].
    destruct (Hout o1 w1 eq_refl) as [-> _].
    rewrite <- Hseed.
    pose proof (outputs_among_seeds (String.eqb repo "getsentry") _ _ Hnot)
      as Hjobs.
    apply keeps_bind.
    - apply keeps_submit_all; [exact Hframed|].
      intros job Hin. apply Hjobs. apply in_or_app. auto.
    - intros futs1. apply keeps_bind; [apply keeps_check_futures|].
      intros rc. destruct (negb (rc =? 0)%Z).
      + apply keeps_bind; [apply keeps_emit|]. intros _. apply keeps_ret.
      + destruct (String.eqb repo "getsentry").
        * apply keeps_bind.
          -- apply keeps_submit_all; [exact Hframed|].
             intros job Hin. apply Hjobs. apply in_or_app. auto.
          -- intros futs2. apply keeps_bind; [apply keeps_check_futures|].
             intros rc2. apply keeps_bind; [apply keeps_emit|].
             intros _. apply keeps_ret.
        * apply keeps_bind; [apply keeps_emit|]. intros _. apply keeps_ret. }
  split; [exact Hmain|].
  intros path Hin. apply Hmain. clear Hmain.
  unfold input_files, lockfiles in *. simpl in *.
  intros Hout.
  repeat (destruct Hin as [<-|Hin]);
    try (repeat (destruct Hout as [Hout|Hout];
           [revert Hout; apply ends_differ_apart; reflexivity|]);
         exact Hout);
    destruct Hin.
Qed.

(** ** Where the futures of a run come from *)

Lemma appends_ret {A} (a : A) : appends spawn (ret a).
Proof. intros w. exists []. rewrite app_nil_r. auto. Qed.

Lemma appends_bind {A B} (c : M A) (k : A -> M B) :
  appends spawn c -> (forall a, appends spawn (k a)) ->
  appends spawn (bind c k).
Proof.
  intros Hc Hk w. unfold bind. destruct (Hc w) as (evs & Hlog & Hall).
  destruct (c w) as [[a|e] w1]; cbn [snd] in *; [|eauto].
  destruct (Hk a w1) as (evs' & Hlog' & Hall').
  exists (evs ++ evs'). rewrite Hlog', Hlog, <- app_assoc.
  split; [reflexivity|]. apply List.Forall_app. auto.
Qed.

Lemma appends_shutdown : appends spawn executor_shutdown.
Proof. intros w. exists [EvShutdown]. split; [reflexivity|]. repeat constructor. Qed.

Lemma appends_seeding (outdir : option string) :
  appends spawn (seeding base_path outdir).
Proof.
  intros w. destruct (seeding_events base_path outdir w)
    as (pairs & Hlog & _).
  exists (copy_events pairs). split; [exact Hlog|].
  clear. induction pairs; simpl; constructor; simpl; auto.
Qed.

Lemma appends_check_futures (futures : list future) :
  appends spawn (check_futures futures).
Proof.
  assert (Hprints : forall texts,
             List.Forall (from_worker spawn) (map EvPrint texts)).
  { induction texts; simpl; constructor; simpl; auto. }
  intros w. destruct (forallb aggregable futures) eqn:Hagg.
  - rewrite check_futures_returns by exact Hagg. eauto.
  - destruct (first_not_aggregable _ Hagg)
      as (pre & bad & post & -> & Hpre & Hbad).
    rewrite check_futures_stops by assumption. eauto.
Qed.

Lemma appends_submit (args : list string) :
  appends spawn (executor_submit (worker spawn) args).
Proof.
  intros w. rewrite (executor_submit_worker spawn). cbn [snd log].
  eexists. split; [reflexivity|]. constructor; [|constructor].
  simpl. eauto.
Qed.

Lemma worker_result_cases (args : list string) (dest : string) (w : world) :
  index_last args = Ret dest ->
  fst (worker spawn args w) = Ret tt
  \/ (exists rc out err,
        rc <> 0
        /\ fst (worker spawn args w)
           = Raise (CalledProcessError rc args out err))
  \/ (exists e, fst (worker spawn args w) = Raise (OSError e)).
Proof.
  intros Hdest. unfold worker. rewrite Hdest.
  unfold bind, try_except, run, bind, get_fs.
  destruct (spawn args (fs w)) as [rc out err m'|e]; [|simpl; eauto].
  cbn [put_fs]. destruct (rc =? 0)%Z eqn:Hrc.
  - unfold ret, open_rb_plus, bind, get_fs. cbn [fs].
    destruct (m' !! dest) as [f|]; [|simpl; eauto].
    destruct (readable f && writable f); [|simpl; eauto].
    left. reflexivity.
  - right. left. exists rc, out, err. apply Z.eqb_neq in Hrc. auto.
Qed.

(** X12.  Every future of a run holds the outcome of [worker] on the
    job it was submitted for: the job returned, or it raised
    [CalledProcessError] with a nonzero code and with exactly the
    submitted command line as its command, or it raised an [OSError].
    So the command shown in a report is the command that was run. *)
Theorem futures_come_from_worker (repo : string) (outdir : option string)
  (w : world) :
  let c := main spawn base_path repo outdir in
  forall args fut,
    In (args, fut) (submitted (run_log c w)) ->
    fut = Ret tt
    \/ (exists rc out err,
          rc <> 0 /\ fut = Raise (CalledProcessError rc args out err))
    \/ (exists e, fut = Raise (OSError e)).
Proof.
  intros c args fut Hin. subst c.
  assert (Hmain : appends spawn (main spawn base_path repo outdir)).
  { unfold main. apply appends_bind; [apply appends_seeding|]. intros out.
    apply appends_bind; [apply appends_submit|]. intros f1.
    apply appends_bind; [apply appends_submit|]. intros f2.
    apply appends_bind.
    { destruct (negb (String.eqb repo "getsentry")); [|apply appends_ret].
      apply appends_bind; [apply appends_submit|]. intros f3.
      apply appends_ret. }
    intros futures. apply appends_bind; [apply appends_check_futures|].
    intros rc. destruct (negb (rc =? 0)%Z).
    { apply appends_bind; [apply appends_shutdown|]. intros _.
      apply appends_ret. }
    apply appends_bind.
    { destruct (String.eqb repo "getsentry"); [|apply appends_ret].
      apply appends_bind; [apply appends_submit|]. intros g1.
      apply appends_bind; [apply appends_submit|]. intros g2.
      apply appends_check_futures. }
    intros rc2. apply appends_bind; [apply appends_shutdown|]. intros _.
    apply appends_ret. }
  destruct (Hmain w) as (evs & Hlog & Hall).
  rewrite (run_log_app _ w evs Hlog) in Hin.
  assert (Hev : In (EvSubmit args fut) evs).
  { clear -Hin. induction evs as [|[] evs IH]; simpl in *; auto.
    destruct Hin as [[= <- <-]|Hin]; auto. }
  rewrite List.Forall_forall in Hall. destruct (Hall _ Hev) as (w0 & ->).
  assert (Hjob : In args (jobs_of (run_log (main spawn base_path repo outdir)
                                     w))).
  { rewrite (run_log_app _ w evs Hlog). unfold jobs_of.
    apply (in_map fst) in Hin. exact Hin. }
  assert (exists dest, index_last args = Ret dest) as (dest & Hdest).
  { destruct (main_analysis spawn base_path repo outdir w)
      as [(e & pairs & _ & _ & Hlog') | (w1 & evs' & _ & Hlog' & Hshape)];
      rewrite Hlog' in Hjob; clear Hlog'.
    - autorewrite with events in Hjob. destruct Hjob.
    - assert (Hamong : In args
                (stage1_jobs base_path (String.eqb repo "getsentry")
                   (out_path base_path outdir)
                 ++ stage2_jobs base_path (out_path base_path outdir))).
      { remember (fst (main spawn base_path repo outdir w)) as r.
        destruct Hshape; autorewrite with events in Hjob;
          apply in_or_app; auto;
          apply in_app_or in Hjob; destruct Hjob; auto. }
      clear -Hamong. destruct (String.eqb repo "getsentry"); cbn in Hamong;
        repeat (destruct Hamong as [<-|Hamong]; [cbn; eauto|]);
        destruct Hamong. }
  exact (worker_result_cases args dest w0 Hdest).
Qed.

End Further.

Lemma tool_scripted_framed (plan : list string -> behaviour) :
  framed (tool_scripted plan).
Proof.
  intros args m rc out err m' Hrun path Hne. unfold tool_scripted in Hrun.
  destruct (plan args); destruct (index_last args) as [dest|e];
    inversion Hrun; subst; try reflexivity.
  apply lookup_insert_ne. congruence.
Qed.

Lemma worker_tool_failure_witness :
  worker (tool_scripted plan_failing) ["pip-compile"; "-o"; "/out/r.txt"]
    empty_world
  = (Raise (CalledProcessError 2 ["pip-compile"; "-o"; "/out/r.txt"] []
              (list_byte_of_string "boom")),
     World ∅ []).
Proof.
  destruct (worker_tool_failure (tool_scripted plan_failing)
              ["pip-compile"; "-o"; "/out/r.txt"] "/out/r.txt" empty_world
              eq_refl) as [Hfails _].
  apply Hfails; [reflexivity|discriminate].
Defined.

Lemma worker_touches_only_output_witness :
  fs (snd (worker (tool_scripted plan_ok)
             ["pip-compile"; "-o"; "/out/r.txt"] repo_world))
    !! "/repo/requirements-frozen.txt"
  = tool_fs (tool_scripted plan_ok) ["pip-compile"; "-o"; "/out/r.txt"]
      (fs repo_world) !! "/repo/requirements-frozen.txt".
Proof.
  destruct (worker_touches_only_output (tool_scripted plan_ok)
              ["pip-compile"; "-o"; "/out/r.txt"] repo_world) as [Hout _].
  apply (Hout "/out/r.txt"); [reflexivity|discriminate].
Defined.

Lemma check_futures_outcome_witness :
  fst (check_futures
         [Ret tt; Raise (OSError (PermissionError "/out/r.txt")); Ret tt]
         empty_world)
  = Raise (OSError (PermissionError "/out/r.txt")).
Proof.
  destruct (check_futures_outcome
              [Ret tt; Raise (OSError (PermissionError "/out/r.txt")); Ret tt]
              empty_world) as (_ & Hother & _).
  apply (Hother [Ret tt] [Ret tt]); reflexivity.
Defined.

Lemma check_futures_effects_witness : (1 = 0 \/ 1 = 1)%Z.
Proof.
  destruct (check_futures_effects
              [Raise (CalledProcessError 7 ["pip-compile"] [] [])]
              empty_world) as (_ & _ & Hrange & _).
  apply Hrange. reflexivity.
Defined.

Lemma shutdown_iff_returned_witness :
  last (run_log (main (tool_scripted plan_ok) "/repo" "sentry" None)
          empty_world)
  = Some EvShutdown.
Proof.
  destruct (shutdown_iff_returned (tool_scripted plan_ok) "/repo" "sentry"
              None empty_world) as [Hreturned _].
  apply Hreturned. vm_compute. reflexivity.
Defined.

Lemma run_prints_reports_witness :
  printed (run_log (main (tool_scripted plan_failing) "/repo" "sentry" None)
             empty_world)
  = reports (futures_of
               (run_log (main (tool_scripted plan_failing) "/repo" "sentry"
                           None) empty_world)).
Proof.
  destruct (run_prints_reports (tool_scripted plan_failing) "/repo" "sentry"
              None empty_world) as (_ & Hreturned & _).
  apply Hreturned. vm_compute. reflexivity.
Defined.

Lemma successful_run_stamps_outputs_witness :
  exists content,
    data <$> (fs (snd (main (tool_scripted plan_ok) "/repo" "getsentry" None
                         empty_world))
              !! "/repo/requirements-dev-frozen.txt")
    = Some (list_byte_of_string
              "# DO NOT MODIFY. This file was generated with `make freeze-requirements`."
            ++ [x0a; x0a] ++ content).
Proof.
  destruct (successful_run_stamps_outputs (tool_scripted plan_ok) "/repo"
              "getsentry" None empty_world (tool_scripted_framed plan_ok)
              ltac:(vm_compute; reflexivity)
              (base_cmd ++ ["/repo/requirements-base.txt";
                            "/repo/requirements-dev.txt"; "-o";
                            "/repo/requirements-dev-frozen.txt"])
              "/repo/requirements-dev-frozen.txt")
    as (job' & m & f & _ & _ & _ & Hdata).
  - vm_compute. right. left. reflexivity.
  - reflexivity.
  - exists (data f). exact Hdata.
Defined.

Lemma seeding_copies_contents_witness :
  exists f g,
    fs repo_world !! "/repo/requirements-dev-frozen.txt" = Some f
    /\ fs (snd (seeding "/repo" (Some "/out") repo_world))
         !! "/out/requirements-dev-frozen.txt" = Some g
    /\ data g = data f
    /\ fs (snd (seeding "/repo" (Some "/out") repo_world))
         !! "/repo/requirements-dev-frozen.txt" = Some f.
Proof.
  destruct (seeding_copies_contents "/repo" "/out" "/out" repo_world
              (snd (seeding "/repo" (Some "/out") repo_world)))
    as [_ Hcopies].
  - vm_compute. reflexivity.
  - apply (Hcopies "requirements-dev-frozen.txt"). right. left. reflexivity.
Defined.

Lemma merge_run_seeds_unused_lockfile_witness :
  In ("/repo/requirements-dev-only-frozen.txt",
      "/out/requirements-dev-only-frozen.txt")
     (copied (run_log (main (tool_scripted plan_ok) "/repo" "getsentry"
                         (Some "/out")) repo_world)).
Proof.
  apply (merge_run_seeds_unused_lockfile (tool_scripted plan_ok) "/repo"
           "/out" repo_world).
  vm_compute. reflexivity.
Defined.

Lemma run_touches_only_lockfiles_witness :
  fs (snd (main (tool_scripted plan_mixed) "/repo" "sentry" (Some "/out")
             repo_world)) !! "/repo/requirements-frozen.txt"
  = fs repo_world !! "/repo/requirements-frozen.txt".
Proof.
  destruct (run_touches_only_lockfiles (tool_scripted plan_mixed) "/repo"
              "sentry" (Some "/out") repo_world
              (tool_scripted_framed plan_mixed)) as [Hframe _].
  apply Hframe. simpl. intros [H|[H|[H|[]]]]; discriminate.
Defined.

Lemma futures_come_from_worker_witness :
  exists rc out err,
    rc <> 0
    /\ (Raise (CalledProcessError 2
                 (base_cmd ++ ["/repo/requirements-base.txt"; "-o";
                               "/repo/requirements-frozen.txt"])
                 [] (list_byte_of_string "boom")) : future)
       = Raise (CalledProcessError rc
                  (base_cmd ++ ["/repo/requirements-base.txt"; "-o";
                                "/repo/requirements-frozen.txt"])
                  out err).
Proof.
  destruct (futures_come_from_worker (tool_scripted plan_failing) "/repo"
              "sentry" None empty_world
              (base_cmd ++ ["/repo/requirements-base.txt"; "-o";
                            "/repo/requirements-frozen.txt"])
              (Raise (CalledProcessError 2
                        (base_cmd ++ ["/repo/requirements-base.txt"; "-o";
                                      "/repo/requirements-frozen.txt"])
                        [] (list_byte_of_string "boom"))))
    as [H|[H|[e H]]].
  - vm_compute. left. reflexivity.
  - discriminate.
  - exact H.
  - discriminate.
Defined.

(** ** Examples *)

Example header_text :
  string_of_list_byte header
  = "# DO NOT MODIFY. This file was generated with `make freeze-requirements`."
    +:+ nl +:+ nl.
Proof. reflexivity. Qed.

Example decode_examples :
  decodable [xc3; xa9] = true
  /\ decodable [xf0; x9f; x98; x80] = true
  /\ decodable [xff] = false
  /\ decodable [xc0; x80] = false
  /\ decodable [xed; xa0; x80] = false
  /\ decodable [xe2; x82] = false.
Proof. repeat split; reflexivity. Qed.

Example repr_examples :
  repr_tuple ["pip-compile"; "-q"] = "('pip-compile', '-q')"
  /\ repr_tuple ["x"] = "('x',)"
  /\ repr_tuple [] = "()"
  /\ str_int (-9) = "-9"
  /\ str_int 0 = "0".
Proof. repeat split; reflexivity. Qed.

(** A merge run in which everything succeeds: two jobs, then the two
    override jobs on the same outputs, then the shutdown. *)
Example merge_run_log :
  main (tool_scripted plan_ok) "/repo" "getsentry" None empty_world
  = (Ret 0,
     World (list_to_map
              [("/repo/requirements-frozen.txt",
                File (header ++ list_byte_of_string "a==1") true true);
               ("/repo/requirements-dev-frozen.txt",
                File (header ++ list_byte_of_string "a==1") true true)])
       [EvSubmit (base_cmd ++ ["/repo/requirements-base.txt"; "-o";
                               "/repo/requirements-frozen.txt"]) (Ret tt);
        EvSubmit (base_cmd ++ ["/repo/requirements-base.txt";
                               "/repo/requirements-dev.txt"; "-o";
                               "/repo/requirements-dev-frozen.txt"]) (Ret tt);
        EvSubmit (base_cmd ++ ["/repo/requirements-base.txt";
                               "/repo/sentry-requirements-frozen.txt"; "-o";
                               "/repo/requirements-frozen.txt"]) (Ret tt);
        EvSubmit (base_cmd ++ ["/repo/requirements-base.txt";
                               "/repo/requirements-dev.txt";
                               "/repo/sentry-requirements-dev-frozen.txt";
                               "-o";
                               "/repo/requirements-dev-frozen.txt"]) (Ret tt);
        EvShutdown]).
Proof. vm_compute. reflexivity. Qed.

(** A merge run in which the compiler fails on both stage-1 jobs: both
    reports are printed, the pool is shut down, 1 is returned. *)
Example failing_merge_run :
  let r := main (tool_scripted plan_failing) "/repo" "getsentry" None
             empty_world in
  fst r = Ret 1
  /\ length (jobs_of (log (snd r))) = 2%nat
  /\ length (printed (log (snd r))) = 2%nat
  /\ last (log (snd r)) = Some EvShutdown.
Proof. vm_compute. repeat split; reflexivity. Qed.

(** The run behind the counterexamples: the first report is printed,
    then the [FileNotFoundError] of the second job leaves [main]. *)
Example mixed_run :
  let r := main (tool_scripted plan_mixed) "/repo" "getsentry" None
             empty_world in
  fst r = Raise (OSError (FileNotFoundError
                            "/repo/requirements-dev-frozen.txt"))
  /\ length (jobs_of (log (snd r))) = 2%nat
  /\ length (printed (log (snd r))) = 1%nat
  /\ ~ In EvShutdown (log (snd r)).
Proof.
  vm_compute. repeat split; try reflexivity.
  intros H. repeat (destruct H as [H|H]; [discriminate|]). exact H.
Qed.
